(** * Joinville Smart Mobility: the jam-to-section matcher of
      [src/data/processing_func.py]

    A shallow embedding of [get_direction], [extract_geo_sections],
    [extract_geo_jams] and [store_jps].  Coordinates are Python floats and
    are modelled by the kernel's binary64 floats; data frames are lists of
    records; a Python exception is an explicit [Raised] outcome.  The calls
    into shapely, geopandas and pyproj are the fields of two interfaces
    ([Geometry], [Projector]) over which the whole development is
    parametric. *)

From Stdlib Require Import List String ZArith Lia Bool Floats Permutation.
From Stdlib Require Uint63.
Import ListNotations.

Set Implicit Arguments.

(** ** Python outcomes *)

Module Py.

Inductive exn : Set :=
| IndexError          (* list index out of range *)
| TypeError           (* iterating or measuring a value that is no sequence *)
| ZeroDivisionError
| LibraryError.       (* raised inside shapely / pyproj *)

Inductive outcome (A : Type) : Type :=
| Returned (a : A)
| Raised (e : exn).
Arguments Raised {A} e.

Definition bind {A B} (c : outcome A) (k : A -> outcome B) : outcome B :=
  match c with
  | Returned a => k a
  | Raised e => Raised e
  end.

(** The value of a computation that returned, forgetting which exception a
    failed one raised. *)
Definition returned {A} (c : outcome A) : option A :=
  match c with
  | Returned a => Some a
  | Raised _ => None
  end.

(** [apply] of a function over a column: the first exception aborts. *)
Fixpoint mapM {A B} (f : A -> outcome B) (l : list A) : outcome (list B) :=
  match l with
  | [] => Returned []
  | a :: l' =>
      bind (f a) (fun b => bind (mapM f l') (fun bs => Returned (b :: bs)))
  end.

(** [l[i]] on a Python list, negative indices counting from the end. *)
Definition getitem {A} (l : list A) (i : Z) : outcome A :=
  let n := Z.of_nat (List.length l) in
  let k := if (i <? 0)%Z then (i + n)%Z else i in
  if (k <? 0)%Z then Raised IndexError
  else match nth_error l (Z.to_nat k) with
       | Some a => Returned a
       | None => Raised IndexError
       end.

End Py.
Import Py.

Notation "x <- c ;; k" := (bind c (fun x => k))
  (at level 61, c at next level, right associativity).

(** ** DirectionClassifier: [get_direction] *)

(** One element of [JamDscCoordinatesLonLat]: a dict with keys "x", "y". *)
Record coord : Set := mkCoord { x : float; y : float }.

(** The value held by the coordinates column: a list of points, or a value
    on which [len] raises (a missing value). *)
Inductive coord_obj : Set :=
| NoLen
| CoordList (l : list coord).

(** [pd.Series([...])] of direction labels; [None] is Python's [None]. *)
Definition Series := list (option string).

Definition get_direction (coord_list : coord_obj) : outcome Series :=
  match coord_list with
  | NoLen => Returned [None; None]
  | CoordList l =>
      let num_coords := Z.of_nat (List.length l) in
      (* North/South *)
      c0 <- getitem l 0 ;;
      let y_start := y c0 in
      cn <- getitem l (num_coords - 1) ;;
      let y_end := y cn in
      let delta_y := (y_end - y_start)%float in
      let lat_direction :=
        if (0 <=? delta_y)%float then "Norte" else "Sul" in
      (* East/West *)
      c0' <- getitem l 0 ;;
      let x_start := x c0' in
      cn' <- getitem l (num_coords - 1) ;;
      let x_end := x cn' in
      let delta_x := (x_end - x_start)%float in
      let lon_direction :=
        if (0 <=? delta_x)%float then "Leste" else "Oeste" in
      (* MajorDirection *)
      let major_direction :=
        if (abs delta_x <? abs delta_y)%float then "Norte/Sul"
        else "Leste/Oeste" in
      Returned [Some lon_direction; Some lat_direction; Some major_direction]
  end%string.

(** ** Section reference rows and [get_main_direction] *)

Record SectionRow : Set := mkSectionRow {
  SctnId : Z;
  SctnDscNome : string;
  SctnDscCoordxUtmComeco : float;
  SctnDscCoordyUtmComeco : float;
  SctnDscCoordxUtmMeio : float;
  SctnDscCoordyUtmMeio : float;
  SctnDscCoordxUtmFinal : float;
  SctnDscCoordyUtmFinal : float
}.

(** The four columns read by [get_main_direction]. *)
Record bbox : Set := mkBbox { MinX : float; MaxX : float; MinY : float; MaxY : float }.

Definition get_main_direction (b : bbox) : string :=
  let delta_x := (MaxX b - MinX b)%float in
  let delta_y := (MaxY b - MinY b)%float in
  if (delta_x <=? delta_y)%float then "Norte/Sul" else "Leste/Oeste".

(** Python's builtin [min] and [max] on three arguments: the running
    extremum is replaced when the next item compares strictly below
    (above) it. *)
Definition py_min (a b c : float) : float :=
  let m := if (b <? a)%float then b else a in
  if (c <? m)%float then c else m.

Definition py_max (a b c : float) : float :=
  let m := if (a <? b)%float then b else a in
  if (m <? c)%float then c else m.

(** pandas' group-wise "min" and "max": missing values are skipped, a
    group without any value aggregates to a missing value. *)
Definition agg_min (l : list float) : float :=
  if forallb is_nan l then nan
  else fold_left (fun m v => if (v <? m)%float then v else m) l infinity.

Definition agg_max (l : list float) : float :=
  if forallb is_nan l then nan
  else fold_left (fun m v => if (m <? v)%float then v else m) l neg_infinity.

(** The bounding box of one section: columns MinX, MaxX, MinY, MaxY. *)
Definition section_bbox (r : SectionRow) : bbox :=
  {| MinX := py_min (SctnDscCoordxUtmComeco r) (SctnDscCoordxUtmMeio r) (SctnDscCoordxUtmFinal r);
     MaxX := py_max (SctnDscCoordxUtmComeco r) (SctnDscCoordxUtmMeio r) (SctnDscCoordxUtmFinal r);
     MinY := py_min (SctnDscCoordyUtmComeco r) (SctnDscCoordyUtmMeio r) (SctnDscCoordyUtmFinal r);
     MaxY := py_max (SctnDscCoordyUtmComeco r) (SctnDscCoordyUtmMeio r) (SctnDscCoordyUtmFinal r) |}.

(** [groupby("SctnDscNome").agg(...)], looked up at one street name. *)
Definition street_bbox (df_sections : list SectionRow) (nome : string) : bbox :=
  let grp := filter (fun r => String.eqb (SctnDscNome r) nome) df_sections in
  {| MinX := agg_min (map (fun r => MinX (section_bbox r)) grp);
     MaxX := agg_max (map (fun r => MaxX (section_bbox r)) grp);
     MinY := agg_min (map (fun r => MinY (section_bbox r)) grp);
     MaxY := agg_max (map (fun r => MaxY (section_bbox r)) grp) |}.

Definition StreetDirection_of (df_sections : list SectionRow) (r : SectionRow) : string :=
  get_main_direction (street_bbox df_sections (SctnDscNome r)).

Definition SectionDirection_of (r : SectionRow) : string :=
  get_main_direction (section_bbox r).

Definition Street_line_XY (r : SectionRow) : list (float * float) :=
  [ (SctnDscCoordxUtmComeco r, SctnDscCoordyUtmComeco r);
    (SctnDscCoordxUtmMeio r, SctnDscCoordyUtmMeio r);
    (SctnDscCoordxUtmFinal r, SctnDscCoordyUtmFinal r) ].

(** ** The libraries the matcher calls *)

(** shapely and geopandas.  [LineString_buffer pts r] is
    [LineString(pts).buffer(r)]; [contains], [within] and [intersects] are
    the binary predicates [sjoin] evaluates on the active geometry columns;
    [to_crs] reprojects one geometry to EPSG:4326. *)
Class Geometry : Type := {
  geom : Type;
  LineString_buffer : list (float * float) -> float -> outcome geom;
  contains : geom -> geom -> bool;
  within : geom -> geom -> bool;
  intersects : geom -> geom -> bool;
  to_crs : geom -> geom
}.

(** pyproj's [Proj] object for UTM zone 22 south, forward and inverse. *)
Class Projector : Type := {
  proj : float -> float -> outcome (float * float);
  proj_inverse : float -> float -> outcome (float * float)
}.

(** A GeoDataFrame: its rows and the name of its active geometry column. *)
Record GeoDataFrame (R C : Type) : Type := mkGeoDataFrame {
  rows : list R;
  geometry_name : C
}.

Definition set_geometry {R C : Type} (df : GeoDataFrame R C) (c : C) : GeoDataFrame R C :=
  {| rows := rows df; geometry_name := c |}.

(** [df[col] = df.apply(f, axis=1)]: the new column is computed for every
    row before it is attached. *)
Definition assign {R V : Type} (f : R -> outcome V) (df : list R) : outcome (list (R * V)) :=
  vs <- mapM f df ;; Returned (combine df vs).

(** ** Tables *)

Record JamRow : Set := mkJamRow {
  JamId : Z;
  JamDateStart : Z;
  JamUuid : string;
  JamDscCoordinatesLonLat : coord_obj
}.

(** One row of the output table: (JamDateStart, JamUuid, SctnId). *)
Definition JamPerSectionRow : Set := (Z * string * Z)%type.

(** The reflected database: the two tables the matcher reads. *)
Record Meta : Set := mkMeta {
  Jam : list JamRow;
  Section_table : list SectionRow
}.

(** [ORDER BY JamDateStart], as a stable insertion sort. *)
Fixpoint insert_by_date (r : JamRow) (l : list JamRow) : list JamRow :=
  match l with
  | [] => [r]
  | h :: t =>
      if (JamDateStart r <=? JamDateStart h)%Z then r :: l
      else h :: insert_by_date r t
  end.

Definition order_by_JamDateStart (l : list JamRow) : list JamRow :=
  fold_right insert_by_date [] l.

(** [jam.select().order_by(jam.c.JamDateStart).offset(skip).limit(limit)] *)
Definition jams_query (meta : Meta) (skip : Z) (limit : option Z) : list JamRow :=
  let ordered := skipn (Z.to_nat skip) (order_by_JamDateStart (Jam meta)) in
  match limit with
  | None => ordered
  | Some n => firstn (Z.to_nat n) ordered
  end.

Inductive JamGeometryColumn : Set := col_jam_LineString | col_jam_alt_LineString.
Inductive SectionGeometryColumn : Set := col_section_LineString | col_section_alt_LineString.

(** A row of [geo_sections]. *)
Record GeoSection (geometry : Type) : Type := mkGeoSection {
  section_row : SectionRow;
  box : bbox;
  StreetDirection : string;
  SectionDirection : string;
  Street_line_LonLat : list (float * float);
  section_LineString : geometry;
  section_alt_LineString : geometry
}.

(** A row of [geo_jams]. *)
Record GeoJam (geometry : Type) : Type := mkGeoJam {
  jam_row : JamRow;
  jams_line_list : list (float * float);
  jams_line_UTM : list (float * float);
  jam_LineString : geometry;
  jam_alt_LineString : geometry;
  LonDirection : option string;
  LatDirection : option string;
  MajorDirection : option string
}.

Section GeometryBuilder.

Context {G : Geometry} {P : Projector}.

Definition lon_lat_to_UTM (l : list (float * float)) : outcome (list (float * float)) :=
  mapM (fun t => let '(lon, lat) := t in proj lon lat) l.

Definition UTM_to_lon_lat (l : list (float * float)) : outcome (list (float * float)) :=
  mapM (fun t => let '(X, Y) := t in proj_inverse X Y) l.

Definition section_geometry (c : SectionGeometryColumn) (s : GeoSection geom) : geom :=
  match c with
  | col_section_LineString => section_LineString s
  | col_section_alt_LineString => section_alt_LineString s
  end.

Definition extract_geo_sections (meta : Meta) (main_buffer alt_buffer : float)
  : outcome (GeoDataFrame (GeoSection geom) SectionGeometryColumn) :=
  let df_sections := Section_table meta in
  df1 <- assign (fun r => UTM_to_lon_lat (Street_line_XY r)) df_sections ;;
  df2 <- assign (fun r => LineString_buffer (Street_line_XY (fst r)) main_buffer) df1 ;;
  df3 <- assign (fun r => LineString_buffer (Street_line_XY (fst (fst r))) alt_buffer) df2 ;;
  Returned
    {| rows :=
         map (fun r =>
                let '(s, lonlat, main, alt) := r in
                {| section_row := s;
                   box := section_bbox s;
                   StreetDirection := StreetDirection_of df_sections s;
                   SectionDirection := SectionDirection_of s;
                   Street_line_LonLat := lonlat;
                   section_LineString := to_crs main;
                   section_alt_LineString := alt |}) df3;
       geometry_name := col_section_LineString |}.

Definition jam_geometry (c : JamGeometryColumn) (j : GeoJam geom) : geom :=
  match c with
  | col_jam_LineString => jam_LineString j
  | col_jam_alt_LineString => jam_alt_LineString j
  end.

(** [[tuple([d['x'], d['y']]) for d in x]] *)
Definition line_list (c : coord_obj) : outcome (list (float * float)) :=
  match c with
  | NoLen => Raised TypeError
  | CoordList l => Returned (map (fun d => (x d, y d)) l)
  end.

Definition extract_geo_jams (meta : Meta) (skip : Z) (limit : option Z)
    (main_buffer alt_buffer : float)
  : outcome (GeoDataFrame (GeoJam geom) JamGeometryColumn) :=
  let df_jams := jams_query meta skip limit in
  df1 <- assign (fun r => line_list (JamDscCoordinatesLonLat r)) df_jams ;;
  df2 <- assign (fun r => lon_lat_to_UTM (snd r)) df1 ;;
  df3 <- assign (fun r => LineString_buffer (snd r) main_buffer) df2 ;;
  df4 <- assign (fun r => LineString_buffer (snd (fst r)) alt_buffer) df3 ;;
  df5 <- assign (fun r => get_direction (JamDscCoordinatesLonLat (fst (fst (fst (fst r)))))) df4 ;;
  Returned
    {| rows :=
         map (fun r =>
                let '(j, ll, utm, main, alt, dir) := r in
                {| jam_row := j;
                   jams_line_list := ll;
                   jams_line_UTM := utm;
                   jam_LineString := to_crs main;
                   jam_alt_LineString := alt;
                   LonDirection := nth 0 dir None;
                   LatDirection := nth 1 dir None;
                   MajorDirection := nth 2 dir None |}) df5;
       geometry_name := col_jam_LineString |}.

End GeometryBuilder.

(** ** SpatialMatcher and BatchCoordinator: [store_jps] *)

(** Every frame bound by one pass of the loop body, under the name the
    source gives it. *)
Record Batch (geometry : Type) : Type := mkBatch {
  sjoin_contains : list (GeoJam geometry * option (GeoSection geometry));
  ids_not_located_contains : list Z;
  jams_per_section_contains : list (GeoJam geometry * GeoSection geometry);
  jams_left_from_contains : GeoDataFrame (GeoJam geometry) JamGeometryColumn;
  sjoin_within : list (GeoJam geometry * option (GeoSection geometry));
  ids_not_located_within : list Z;
  jams_per_section_within : list (GeoJam geometry * GeoSection geometry);
  jams_left_from_within : GeoDataFrame (GeoJam geometry) JamGeometryColumn;
  sjoin_intersects : list (GeoJam geometry * GeoSection geometry);
  jams_per_section_intersects : list (GeoJam geometry * GeoSection geometry);
  jams_per_section : list JamPerSectionRow;
  geo_sections_after : GeoDataFrame (GeoSection geometry) SectionGeometryColumn
}.

Section SpatialMatcher.

Context {G : Geometry} {P : Projector}.

Definition JamFrame : Type := GeoDataFrame (GeoJam geom) JamGeometryColumn.
Definition SectionFrame : Type := GeoDataFrame (GeoSection geom) SectionGeometryColumn.

(** [x == y] between a column that may hold [None] and a string column. *)
Definition py_eq (a : option string) (b : string) : bool :=
  match a with
  | Some s => String.eqb s b
  | None => false
  end.

Definition check_directions (x : GeoJam geom * GeoSection geom) : bool :=
  if py_eq (MajorDirection (fst x)) (StreetDirection (snd x)) then true
  else if py_eq (MajorDirection (fst x)) (SectionDirection (snd x)) then true
  else false.

(** The right rows whose active geometry satisfies [op] with that of one
    left row. *)
Definition sjoin_matches (op : geom -> geom -> bool)
    (left : JamFrame) (right : SectionFrame) (j : GeoJam geom) : list (GeoSection geom) :=
  filter (fun s => op (jam_geometry (geometry_name left) j)
                      (section_geometry (geometry_name right) s))
         (rows right).

(** [gpd.sjoin(left, right, how="left", op=...)]: a left row without a
    match is kept once, its right columns null. *)
Definition sjoin_left (op : geom -> geom -> bool)
    (left : JamFrame) (right : SectionFrame) : list (GeoJam geom * option (GeoSection geom)) :=
  flat_map (fun j =>
              match sjoin_matches op left right j with
              | [] => [(j, None)]
              | ms => map (fun s => (j, Some s)) ms
              end) (rows left).

(** [gpd.sjoin(left, right, how="inner", op=...)] *)
Definition sjoin_inner (op : geom -> geom -> bool)
    (left : JamFrame) (right : SectionFrame) : list (GeoJam geom * GeoSection geom) :=
  flat_map (fun j => map (fun s => (j, s)) (sjoin_matches op left right j))
           (rows left).

(** [df[df["SctnId"].isnull()]["JamId"]] *)
Definition ids_not_located (df : list (GeoJam geom * option (GeoSection geom))) : list Z :=
  flat_map (fun r => match snd r with
                     | None => [JamId (jam_row (fst r))]
                     | Some _ => []
                     end) df.

(** [df.dropna(subset=["SctnId"])] *)
Definition dropna (df : list (GeoJam geom * option (GeoSection geom))) : list (GeoJam geom * GeoSection geom) :=
  flat_map (fun r => match snd r with
                     | None => []
                     | Some s => [(fst r, s)]
                     end) df.

(** [geo_jams.loc[geo_jams["JamId"].isin(ids)]] *)
Definition loc_isin (geo_jams : JamFrame) (ids : list Z) : JamFrame :=
  {| rows := filter (fun j => existsb (Z.eqb (JamId (jam_row j))) ids) (rows geo_jams);
     geometry_name := geometry_name geo_jams |}.

(** [df[["JamDateStart", "JamUuid", "SctnId"]]] *)
Definition output_row (r : GeoJam geom * GeoSection geom) : JamPerSectionRow :=
  (JamDateStart (jam_row (fst r)), JamUuid (jam_row (fst r)), SctnId (section_row (snd r))).

Definition match_batch (geo_jams : JamFrame) (geo_sections : SectionFrame) : Batch geom :=
  (* Find jams that contain sections entirely *)
  let joined_contains := sjoin_left contains geo_jams geo_sections in
  let not_contains := ids_not_located joined_contains in
  let per_section_contains := dropna joined_contains in
  (* Find jams that are entirely within sections *)
  let left_from_contains :=
    set_geometry (loc_isin geo_jams not_contains) col_jam_alt_LineString in
  let geo_sections := set_geometry geo_sections col_section_alt_LineString in
  let joined_within := sjoin_left within left_from_contains geo_sections in
  let not_within := ids_not_located joined_within in
  let per_section_within := dropna joined_within in
  (* Find jams that intersect but with plausible directions *)
  let geo_sections := set_geometry geo_sections col_section_LineString in
  let left_from_within := loc_isin geo_jams not_within in
  let joined_intersects := sjoin_inner intersects left_from_within geo_sections in
  let per_section_intersects := filter check_directions joined_intersects in
  (* Concatenate three dataframes *)
  let concat := per_section_contains ++ per_section_within ++ per_section_intersects in
  {| sjoin_contains := joined_contains;
     ids_not_located_contains := not_contains;
     jams_per_section_contains := per_section_contains;
     jams_left_from_contains := left_from_contains;
     sjoin_within := joined_within;
     ids_not_located_within := not_within;
     jams_per_section_within := per_section_within;
     jams_left_from_within := left_from_within;
     sjoin_intersects := joined_intersects;
     jams_per_section_intersects := per_section_intersects;
     jams_per_section := map output_row concat;
     geo_sections_after := geo_sections |}.

(** [math.ceil(total_rows / batch_size)] on integers. *)
Definition number_batches (total_rows batch_size : Z) : outcome Z :=
  if (batch_size =? 0)%Z then Raised ZeroDivisionError
  else Returned (- ((- total_rows) / batch_size))%Z.

(** [range(0, n)] *)
Definition range (n : Z) : list Z := map Z.of_nat (seq 0 (Z.to_nat n)).

(** The loop of [store_jps]: the state carried from one batch to the next
    is the rows appended to [JamPerSection] so far and the frame bound to
    [geo_sections].  A batch that raises leaves the rows already stored. *)
Fixpoint batches (meta : Meta) (batch_size : Z) (idx : list Z)
    (geo_sections : SectionFrame) (stored : list JamPerSectionRow)
  : list JamPerSectionRow * outcome unit :=
  match idx with
  | [] => (stored, Returned tt)
  | i :: idx' =>
      match extract_geo_jams meta (i * batch_size) (Some batch_size) 20 10 with
      | Raised e => (stored, Raised e)
      | Returned geo_jams =>
          let b := match_batch geo_jams geo_sections in
          batches meta batch_size idx' (geo_sections_after b)
                  (stored ++ jams_per_section b)
      end
  end.

Definition store_jps (meta : Meta) (batch_size : Z)
  : list JamPerSectionRow * outcome unit :=
  match extract_geo_sections meta 10 20 with
  | Raised e => ([], Raised e)
  | Returned geo_sections =>
      let total_rows := Z.of_nat (List.length (Jam meta)) in
      match number_batches total_rows batch_size with
      | Raised e => ([], Raised e)
      | Returned n => batches meta batch_size (range n) geo_sections []
      end
  end.

End SpatialMatcher.

(** ** Row-wise reading of the builders and of one batch

    The builders attach one column at a time and the loop body threads
    identifier lists from one tier to the next.  The definitions below read
    the same computations one row at a time; the properties section proves
    that they agree with the frame-wise code. *)

Section RowWise.

Context {G : Geometry} {P : Projector}.

Definition geo_jam_of (main_buffer alt_buffer : float) (r : JamRow) : outcome (GeoJam geom) :=
  ll <- line_list (JamDscCoordinatesLonLat r) ;;
  utm <- lon_lat_to_UTM ll ;;
  main <- LineString_buffer utm main_buffer ;;
  alt <- LineString_buffer utm alt_buffer ;;
  dir <- get_direction (JamDscCoordinatesLonLat r) ;;
  Returned {| jam_row := r;
              jams_line_list := ll;
              jams_line_UTM := utm;
              jam_LineString := to_crs main;
              jam_alt_LineString := alt;
              LonDirection := nth 0 dir None;
              LatDirection := nth 1 dir None;
              MajorDirection := nth 2 dir None |}.

Definition geo_section_of (df_sections : list SectionRow)
    (main_buffer alt_buffer : float) (s : SectionRow) : outcome (GeoSection geom) :=
  lonlat <- UTM_to_lon_lat (Street_line_XY s) ;;
  main <- LineString_buffer (Street_line_XY s) main_buffer ;;
  alt <- LineString_buffer (Street_line_XY s) alt_buffer ;;
  Returned {| section_row := s;
              box := section_bbox s;
              StreetDirection := StreetDirection_of df_sections s;
              SectionDirection := SectionDirection_of s;
              Street_line_LonLat := lonlat;
              section_LineString := to_crs main;
              section_alt_LineString := alt |}.

Definition isnil {A} (l : list A) : bool :=
  match l with
  | [] => true
  | _ :: _ => false
  end.

(** Tier A for one jam: the sections its main polygon contains. *)
Definition tierA (sections : list (GeoSection geom)) (j : GeoJam geom) : list (GeoSection geom) :=
  filter (fun s => contains (jam_LineString j) (section_LineString s)) sections.

(** Tier B for one jam: tried only when tier A found nothing. *)
Definition tierB (sections : list (GeoSection geom)) (j : GeoJam geom) : list (GeoSection geom) :=
  if isnil (tierA sections j)
  then filter (fun s => within (jam_alt_LineString j) (section_alt_LineString s)) sections
  else [].

(** Tier C for one jam: tried only when tiers A and B found nothing. *)
Definition tierC (sections : list (GeoSection geom)) (j : GeoJam geom) : list (GeoSection geom) :=
  if isnil (tierA sections j) && isnil (tierB sections j)
  then filter (fun s => check_directions (j, s))
         (filter (fun s => intersects (jam_LineString j) (section_LineString s)) sections)
  else [].

Definition rows_of (tier : list (GeoSection geom) -> GeoJam geom -> list (GeoSection geom))
    (sections : list (GeoSection geom)) (jams : list (GeoJam geom)) : list (GeoJam geom * GeoSection geom) :=
  flat_map (fun j => map (fun s => (j, s)) (tier sections j)) jams.


(** The identifier column of a page. *)
Definition JamIds (jams : list (GeoJam geom)) : list Z :=
  map (fun j => JamId (jam_row j)) jams.

(** What the matcher needs from the geometry library for tier C to see
    every pair whose thin buffers meet: the polygon of radius 20 around a
    line, reprojected, meets whatever the polygon of radius 10 around the
    same line meets. *)
Definition fat_buffer_reaches : Prop :=
  forall (l l' : list (float * float)) (thinJ fatJ thinS : geom),
    LineString_buffer l 10 = Returned thinJ ->
    LineString_buffer l 20 = Returned fatJ ->
    LineString_buffer l' 10 = Returned thinS ->
    intersects thinJ thinS = true ->
    intersects (to_crs fatJ) (to_crs thinS) = true.

End RowWise.

(** ** An exact instance of the libraries: envelope geometry

    Every finite binary64 value is an integer multiple of 2^-1074, so
    coordinates can be held exactly as integers.  A buffered line is
    represented by the axis-parallel rectangle that encloses it; the
    projection is the identity chart. *)

Module Envelope.

(** The exact value of a finite float, in units of 2^-1074: the mantissa
    and the exponent are read off with the primitive decomposition. *)
Definition scaled (f : float) : option Z :=
  if is_nan f || is_infinity f then None
  else
    let (m, e) := frshiftexp (abs f) in
    let mantissa := Uint63.to_Z (normfr_mantissa m) in
    let exponent := (Uint63.to_Z e - FloatOps.shift - 53)%Z in
    let v := Z.shiftl mantissa (exponent + 1074) in
    Some (if (f <? 0)%float then (- v)%Z else v).

Record rect : Set := mkRect { xmin : Z; ymin : Z; xmax : Z; ymax : Z }.

Fixpoint scaled_points (pts : list (float * float)) : option (list (Z * Z)) :=
  match pts with
  | [] => Some []
  | (a, b) :: pts' =>
      match scaled a, scaled b, scaled_points pts' with
      | Some a', Some b', Some l => Some ((a', b') :: l)
      | _, _, _ => None
      end
  end.

Definition hull (p : Z * Z) (l : list (Z * Z)) : rect :=
  fold_left (fun r q =>
               {| xmin := Z.min (xmin r) (fst q); ymin := Z.min (ymin r) (snd q);
                  xmax := Z.max (xmax r) (fst q); ymax := Z.max (ymax r) (snd q) |})
            l {| xmin := fst p; ymin := snd p; xmax := fst p; ymax := snd p |}.

Definition grow (r : rect) (d : Z) : rect :=
  {| xmin := xmin r - d; ymin := ymin r - d; xmax := xmax r + d; ymax := ymax r + d |}.

(** A line needs two points and finite coordinates. *)
Definition buffer (pts : list (float * float)) (radius : float) : outcome rect :=
  match scaled_points pts, scaled radius with
  | Some (p :: (_ :: _) as l), Some d => Returned (grow (hull p l) d)
  | _, _ => Raised LibraryError
  end.

Definition rect_contains (a b : rect) : bool :=
  ((xmin a <=? xmin b) && (ymin a <=? ymin b) &&
   (xmax b <=? xmax a) && (ymax b <=? ymax a))%Z.

Definition rect_intersects (a b : rect) : bool :=
  ((xmin a <=? xmax b) && (xmin b <=? xmax a) &&
   (ymin a <=? ymax b) && (ymin b <=? ymax a))%Z.

#[export] Instance geometry : Geometry :=
  {| geom := rect;
     LineString_buffer := buffer;
     contains := rect_contains;
     within := fun a b => rect_contains b a;
     intersects := rect_intersects;
     to_crs := fun g => g |}.

#[export] Instance projector : Projector :=
  {| proj := fun lon lat => Returned (lon, lat);
     proj_inverse := fun X Y => Returned (X, Y) |}.

End Envelope.

(** ** A small town: three sections on two streets, five jams *)

Module Town.

Definition line (l : list (float * float)) : coord_obj :=
  CoordList (map (fun p => {| x := fst p; y := snd p |}) l).

(** Rua Norte runs south to north in two blocks, Rua Leste crosses it. *)
Definition S1 : SectionRow := mkSectionRow 1 "Rua Norte" 0 0 0 50 0 100.
Definition S2 : SectionRow := mkSectionRow 2 "Rua Leste" 0 50 50 50 100 50.
Definition S3 : SectionRow := mkSectionRow 3 "Rua Norte" 0 100 0 150 0 200.

(** A jam along both blocks of Rua Norte. *)
Definition JA : JamRow := mkJamRow 11 1000 "a" (line [(0, -5); (0, 100); (0, 205)]%float).
(** A jam inside the middle of Rua Leste. *)
Definition JB : JamRow := mkJamRow 12 1001 "b" (line [(20, 50); (80, 50)]%float).
(** A jam arriving from the west at the crossing. *)
Definition JC : JamRow := mkJamRow 13 1002 "c" (line [(-100, 50); (5, 50)]%float).
(** A jam far away from every section. *)
Definition JD : JamRow := mkJamRow 14 1003 "d" (line [(1000, 1000); (1100, 1000)]%float).
(** A jam wholly inside the first block of Rua Norte. *)
Definition JE : JamRow := mkJamRow 15 1004 "e" (line [(0, 40); (0, 60)]%float).

Definition meta : Meta :=
  {| Jam := [JC; JA; JE; JB; JD]; Section_table := [S1; S2; S3] |}.

(** The same street map when one of two jams arrives without any point. *)
Definition JX : JamRow := mkJamRow 16 1005 "x" (CoordList []).

Definition meta_with_gap : Meta :=
  {| Jam := [JA; JX]; Section_table := [S1; S2; S3] |}.

(** Two sections that share both end points and differ in the middle one. *)
Definition straight : SectionRow := mkSectionRow 7 "Rua Reta" 0 0 0 5 0 10.
Definition bent : SectionRow := mkSectionRow 7 "Rua Reta" 0 0 50 5 0 10.

End Town.

(** ** Tabulating the nested event lists: [json_to_df], [tabulate_jams],
       [tabulate_alerts], [tabulate_irregularities] *)

Module Tabulate.

Inductive error : Set :=
| Exception_      (* the exception raised when the column is absent *)
| ValueError.     (* pandas: no objects to concatenate *)

Inductive result (A : Type) : Type :=
| Ok (a : A)
| Fail (e : error).
Arguments Fail {A} e.

Section Column.

(** [R]: what a raw record holds besides the column; [J]: one element of
    the list the column holds. *)
Variables R J : Type.

(** [raw_data]: a frame without the column, or a frame whose rows carry a
    cell that is null or a list. *)
Inductive RawData : Type :=
| Without (records : list R)
| With (records : list (R * option (list J))).

(** One row of the result: the columns of the record, its list, and the
    flattened columns of one element of the list. *)
Definition Row : Type := (R * list J * J)%type.

(** [json_to_df(row, json_column)] on a row whose cell is the list [json]:
    the row is repeated once per element; repeating it zero times leaves
    nothing to concatenate. *)
Definition json_to_df (row : R) (json : list J) : result (list Row) :=
  match json with
  | [] => Fail ValueError
  | _ :: _ => Ok (map (fun j => (row, json, j)) json)
  end.

(** [raw_data[~(raw_data[column].isnull())]] *)
Definition cleaned (records : list (R * option (list J))) : list (R * list J) :=
  flat_map (fun r => match snd r with
                     | Some json => [(fst r, json)]
                     | None => []
                     end) records.

(** The list comprehension over [iterrows]: the first failure aborts. *)
Fixpoint frames (rows : list (R * list J)) : result (list (list Row)) :=
  match rows with
  | [] => Ok []
  | (r, json) :: rows' =>
      match json_to_df r json with
      | Fail e => Fail e
      | Ok f =>
          match frames rows' with
          | Fail e => Fail e
          | Ok fs => Ok (f :: fs)
          end
      end
  end.

(** The body shared by the three functions: the column test, the null
    filter, one frame per record, and their concatenation. *)
Definition tabulate (raw_data : RawData) : result (list Row) :=
  match raw_data with
  | Without _ => Fail Exception_
  | With records =>
      match frames (cleaned records) with
      | Fail e => Fail e
      | Ok [] => Fail ValueError
      | Ok (f :: fs) => Ok (List.concat (f :: fs))
      end
  end.

Definition tabulate_jams : RawData -> result (list Row) := tabulate.
Definition tabulate_alerts : RawData -> result (list Row) := tabulate.
Definition tabulate_irregularities : RawData -> result (list Row) := tabulate.

End Column.

End Tabulate.

(** ** The town with a bend: the last block of Rua Norte turns east, so its
       own direction differs from the street's. *)

Module Bend.

Definition S4 : SectionRow := mkSectionRow 4 "Rua Norte" 0 200 30 205 60 210.

Definition meta : Meta :=
  {| Jam := Jam Town.meta; Section_table := [Town.S1; Town.S3; S4] |}.

End Bend.

(** ** Rows of the output table that pair a row of each input table *)

Definition from_tables (meta : Meta) (row : JamPerSectionRow) : Prop :=
  exists r sr, In r (Jam meta) /\ In sr (Section_table meta) /\
               row = (JamDateStart r, JamUuid r, SctnId sr).

(** The identifiers of a joined row. *)
Definition pair_ids {geometry : Type} (p : GeoJam geometry * GeoSection geometry) : Z * Z :=
  (JamId (jam_row (fst p)), SctnId (section_row (snd p))).

(** * Properties *)

(** ** Floats: what equality says about the two order tests *)

Lemma eqb_leb (a b : float) : (a =? b)%float = true -> (a <=? b)%float = true.
Proof.
  rewrite eqb_spec, leb_spec. unfold SFeqb, SFleb.
  destruct (SFcompare (Prim2SF a) (Prim2SF b)) as [[ | | ]|]; congruence.
Qed.

Lemma eqb_not_ltb (a b : float) : (a =? b)%float = true -> (a <? b)%float = false.
Proof.
  rewrite eqb_spec, ltb_spec. unfold SFeqb, SFltb.
  destruct (SFcompare (Prim2SF a) (Prim2SF b)) as [[ | | ]|]; congruence.
Qed.

(** ** Indexing *)

Lemma getitem_0 {A} (a : A) (l : list A) : getitem (a :: l) 0 = Returned a.
Proof. reflexivity. Qed.

Lemma getitem_last {A} (pre : list A) (b : A) :
  getitem (pre ++ [b]) (Z.of_nat (List.length (pre ++ [b])) - 1) = Returned b.
Proof.
  unfold getitem. rewrite length_app. cbn [List.length].
  replace (Z.of_nat (List.length pre + 1) - 1)%Z with (Z.of_nat (List.length pre)) by lia.
  assert (E : (Z.of_nat (List.length pre) <? 0)%Z = false) by (apply Z.ltb_ge; lia).
  cbv zeta. rewrite !E, Nat2Z.id, nth_error_app2, Nat.sub_diag by lia. reflexivity.
Qed.

(** [get_direction] on a sequence with a first point, any middle points and
    a last point. *)
Lemma get_direction_ends (first last : coord) (mid : list coord) :
  get_direction (CoordList (first :: mid ++ [last])) =
  get_direction (CoordList [first; last]).
Proof.
  unfold get_direction.
  change (first :: mid ++ [last]) with ((first :: mid) ++ [last]).
  rewrite !getitem_last.
  change ((first :: mid) ++ [last]) with (first :: mid ++ [last]).
  rewrite !getitem_0. reflexivity.
Qed.

(** ** C7 *)

(** C7. For a coordinate sequence with at least two points, [get_direction]
    returns the three labels (longitude, latitude, major): the latitude
    label is "Norte" exactly when [last.y - first.y >= 0] and "Sul"
    otherwise; the longitude label is "Leste" exactly when
    [last.x - first.x >= 0] and "Oeste" otherwise; the major label is
    "Norte/Sul" exactly when [abs(delta_y) > abs(delta_x)] and "Leste/Oeste"
    otherwise, so a tie gives "Leste/Oeste". *)
Theorem get_direction_classifies (first last : coord) (mid : list coord) :
  let delta_y := (y last - y first)%float in
  let delta_x := (x last - x first)%float in
  exists lon lat major : string,
    get_direction (CoordList (first :: mid ++ [last])) =
      Returned [Some lon; Some lat; Some major] /\
    (lat = "Norte"%string <-> (0 <=? delta_y)%float = true) /\
    (lat = "Sul"%string <-> (0 <=? delta_y)%float = false) /\
    (lon = "Leste"%string <-> (0 <=? delta_x)%float = true) /\
    (lon = "Oeste"%string <-> (0 <=? delta_x)%float = false) /\
    (major = "Norte/Sul"%string <-> (abs delta_x <? abs delta_y)%float = true) /\
    (major = "Leste/Oeste"%string <-> (abs delta_x <? abs delta_y)%float = false) /\
    ((abs delta_x =? abs delta_y)%float = true -> major = "Leste/Oeste"%string).
Proof.
  intros delta_y delta_x. rewrite get_direction_ends.
  unfold get_direction. rewrite getitem_0.
  change (Z.of_nat (List.length [first; last]) - 1)%Z with 1%Z.
  change (getitem [first; last] 1) with (Returned last).
  cbn [bind]. fold delta_y delta_x.
  do 3 eexists. split; [reflexivity|].
  pose proof (@eqb_not_ltb (abs delta_x) (abs delta_y)) as Htie.
  destruct (0 <=? delta_y)%float, (0 <=? delta_x)%float,
           (abs delta_x <? abs delta_y)%float;
    repeat split; intros; try reflexivity; try discriminate;
    try (specialize (Htie ltac:(assumption)); discriminate).
Qed.

(** ** C3 *)

(** C3, counterexample.  Two sections with the same first point (0,0) and
    the same last point (0,10) whose middle points differ, (0,5) against
    (50,5), get different section and street directions: the bounding box
    takes the middle point into account. *)
Lemma section_direction_reads_middle_point :
  (SctnDscCoordxUtmComeco Town.straight, SctnDscCoordyUtmComeco Town.straight) =
  (SctnDscCoordxUtmComeco Town.bent, SctnDscCoordyUtmComeco Town.bent) /\
  (SctnDscCoordxUtmFinal Town.straight, SctnDscCoordyUtmFinal Town.straight) =
  (SctnDscCoordxUtmFinal Town.bent, SctnDscCoordyUtmFinal Town.bent) /\
  SectionDirection_of Town.straight = "Norte/Sul"%string /\
  SectionDirection_of Town.bent = "Leste/Oeste"%string /\
  StreetDirection_of [Town.straight] Town.straight = "Norte/Sul"%string /\
  StreetDirection_of [Town.bent] Town.bent = "Leste/Oeste"%string.
Proof. repeat split; vm_compute; reflexivity. Qed.

(** C3, as amended.  The jam classifier [get_direction] reads only the
    first and the last point of a sequence of at least two points: any two
    sequences with the same end points get the same three labels, whatever
    their intermediate points (inserted, removed or reordered). *)
Theorem get_direction_first_last_only (first last : coord) (mid mid' : list coord) :
  get_direction (CoordList (first :: mid ++ [last])) =
  get_direction (CoordList (first :: mid' ++ [last])).
Proof. rewrite !get_direction_ends. reflexivity. Qed.

(** ** C2 *)

(** The empty sequence: [coord_list[0]] raises. *)
Lemma get_direction_empty_raises :
  get_direction (CoordList []) = Raised IndexError.
Proof. reflexivity. Qed.



(** ** C10 *)

(** C10. A bounding box whose X extent equals its Y extent is classified
    "Norte/Sul" by [get_main_direction], for a section and for a street
    aggregate alike, whereas a jam whose [abs(delta_x)] equals
    [abs(delta_y)] gets the major direction "Leste/Oeste": the two
    classifiers put their ties on opposite axes. *)
Theorem tie_break_differs (df_sections : list SectionRow) (r : SectionRow)
    (first last : coord) (mid : list coord) :
  let sb := section_bbox r in
  let gb := street_bbox df_sections (SctnDscNome r) in
  let delta_x := (x last - x first)%float in
  let delta_y := (y last - y first)%float in
  ((MaxX sb - MinX sb =? MaxY sb - MinY sb)%float = true ->
   SectionDirection_of r = "Norte/Sul"%string) /\
  ((MaxX gb - MinX gb =? MaxY gb - MinY gb)%float = true ->
   StreetDirection_of df_sections r = "Norte/Sul"%string) /\
  ((abs delta_x =? abs delta_y)%float = true ->
   exists lon lat : string,
     get_direction (CoordList (first :: mid ++ [last])) =
       Returned [Some lon; Some lat; Some "Leste/Oeste"%string]) /\
  "Norte/Sul"%string <> "Leste/Oeste"%string.
Proof.
  intros sb gb delta_x delta_y. repeat split.
  - intro Hs. unfold SectionDirection_of, get_main_direction. fold sb.
    rewrite (eqb_leb Hs). reflexivity.
  - intro Hg. unfold StreetDirection_of, get_main_direction. fold gb.
    rewrite (eqb_leb Hg). reflexivity.
  - intro Hj. rewrite get_direction_ends. unfold get_direction.
    rewrite getitem_0.
    change (Z.of_nat (List.length [first; last]) - 1)%Z with 1%Z.
    change (getitem [first; last] 1) with (Returned last).
    cbn [bind]. fold delta_x delta_y. rewrite (eqb_not_ltb Hj).
    do 2 eexists. reflexivity.
  - discriminate.
Qed.

(** A square section on a one-section street, and a jam along the diagonal. *)
Lemma tie_break_differs_witness :
  SectionDirection_of (mkSectionRow 9 "Praca" 0 0 10 10 10 0) = "Norte/Sul"%string /\
  StreetDirection_of [mkSectionRow 9 "Praca" 0 0 10 10 10 0]
    (mkSectionRow 9 "Praca" 0 0 10 10 10 0) = "Norte/Sul"%string /\
  exists lon lat : string,
    get_direction (CoordList (mkCoord 0 0 :: [mkCoord 3 1] ++ [mkCoord 10 (-10)])) =
      Returned [Some lon; Some lat; Some "Leste/Oeste"%string].
Proof.
  pose (r := mkSectionRow 9 "Praca" 0 0 10 10 10 0).
  destruct (@tie_break_differs [r] r (mkCoord 0 0) (mkCoord 10 (-10)) [mkCoord 3 1])
    as (H1 & H2 & H3 & _).
  split; [apply H1; vm_compute; reflexivity|].
  split; [apply H2; vm_compute; reflexivity|].
  apply H3. vm_compute. reflexivity.
Defined.

(** ** Outcomes and column-wise building *)

Lemma returned_Some {A} (c : outcome A) (a : A) :
  returned c = Some a <-> c = Returned a.
Proof. destruct c; cbn; split; congruence. Qed.

Lemma returned_bind {A B} (c : outcome A) (k : A -> outcome B) :
  returned (bind c k) =
  match returned c with
  | Some a => returned (k a)
  | None => None
  end.
Proof. destruct c; reflexivity. Qed.

Lemma returned_mapM_cons {A B} (f : A -> outcome B) (a : A) (l : list A) :
  returned (mapM f (a :: l)) =
  match returned (f a), returned (mapM f l) with
  | Some b, Some bs => Some (b :: bs)
  | _, _ => None
  end.
Proof. cbn. destruct (f a); cbn; [destruct (mapM f l)|]; reflexivity. Qed.

Lemma returned_mapM_ext {A B} (f g : A -> outcome B) (l : list A) :
  (forall a, In a l -> returned (f a) = returned (g a)) ->
  returned (mapM f l) = returned (mapM g l).
Proof.
  induction l as [|a l IH]; intro H; [reflexivity|].
  rewrite !returned_mapM_cons, IH by (intros; apply H; cbn; auto).
  rewrite (H a) by (cbn; auto). reflexivity.
Qed.


(** A pass that cannot raise is a [map]. *)
Lemma returned_pure_map {A C D} (w : list C -> D) (h : A -> C) (l : list A) :
  returned (Returned (w (map h l))) =
  option_map w (returned (mapM (fun r => Returned (h r)) l)).
Proof.
  replace (mapM (fun r => Returned (h r)) l) with (Returned (map h l)); [reflexivity|].
  induction l as [|a l IH]; [reflexivity|]. cbn. rewrite <- IH. reflexivity.
Qed.

Lemma assign_mapM {R V} (f : R -> outcome V) (df : list R) :
  assign f df = mapM (fun r => bind (f r) (fun v => Returned (r, v))) df.
Proof.
  unfold assign. induction df as [|r df IH]; [reflexivity|].
  cbn. destruct (f r) as [v|e]; cbn; [|reflexivity].
  rewrite <- IH. destruct (mapM f df); reflexivity.
Qed.

(** Two passes over a column amount to one pass of the composed step. *)
Lemma returned_mapM_compose {A B C} (f : A -> outcome B) (g : B -> outcome C)
    (l : list A) :
  match returned (mapM f l) with
  | Some l1 => returned (mapM g l1)
  | None => None
  end = returned (mapM (fun a => bind (f a) g) l).
Proof.
  induction l as [|a l IH]; [reflexivity|].
  rewrite !returned_mapM_cons, returned_bind.
  destruct (returned (f a)) as [b|]; [|reflexivity].
  rewrite <- IH.
  destruct (returned (mapM f l)) as [bs|].
  - rewrite returned_mapM_cons. reflexivity.
  - destruct (returned (g b)); reflexivity.
Qed.

(** Attaching a column and carrying on amounts to one pass of the composed
    row step. *)
Lemma returned_assign_then {A V C D} (f : A -> outcome V) (g : A * V -> outcome C)
    (K : list (A * V) -> outcome D) (w : list C -> D) (l : list A) :
  (forall l1, returned (K l1) = option_map w (returned (mapM g l1))) ->
  returned (bind (assign f l) K) =
  option_map w (returned (mapM (fun a => bind (f a) (fun v => g (a, v))) l)).
Proof.
  intro HK. rewrite returned_bind, assign_mapM.
  rewrite (@returned_mapM_ext _ _ (fun a => bind (f a) (fun v => g (a, v)))
             (fun a => bind (bind (f a) (fun v => Returned (a, v))) g)).
  - rewrite <- returned_mapM_compose.
    destruct (returned (mapM _ l)); [apply HK | reflexivity].
  - intros a _. destruct (f a); reflexivity.
Qed.

Lemma mapM_In {A B} (f : A -> outcome B) (l : list A) (l' : list B) (b : B) :
  mapM f l = Returned l' -> In b l' -> exists a, In a l /\ f a = Returned b.
Proof.
  revert l'. induction l as [|a l IH]; intros l' H Hb.
  - injection H as <-. destruct Hb.
  - cbn in H. destruct (f a) as [b0|] eqn:Ea; [|discriminate].
    destruct (mapM f l) as [bs|] eqn:El; [|discriminate].
    cbn in H. injection H as <-. destruct Hb as [<-|Hb].
    + exists a. cbn; auto.
    + destruct (IH bs eq_refl Hb) as (a' & Ha' & E). exists a'. cbn; auto.
Qed.

Lemma mapM_map_inv {A B} (f : A -> outcome B) (g : B -> A) (l : list A) (l' : list B) :
  (forall a b, f a = Returned b -> g b = a) ->
  mapM f l = Returned l' -> map g l' = l.
Proof.
  intro Hg. revert l'. induction l as [|a l IH]; intros l' H.
  - injection H as <-. reflexivity.
  - cbn in H. destruct (f a) as [b0|] eqn:Ea; [|discriminate].
    destruct (mapM f l) as [bs|] eqn:El; [|discriminate].
    cbn in H. injection H as <-. cbn. rewrite (Hg _ _ Ea), (IH bs eq_refl).
    reflexivity.
Qed.

Lemma mapM_raises {A B} (f : A -> outcome B) (l : list A) (a : A) :
  In a l -> returned (f a) = None -> returned (mapM f l) = None.
Proof.
  induction l as [|a0 l IH]; intros Ha E; [destruct Ha|].
  rewrite returned_mapM_cons. destruct Ha as [->|Ha].
  - rewrite E. reflexivity.
  - rewrite (IH Ha E). destruct (returned (f a0)); reflexivity.
Qed.

(** ** The builders, row by row *)

Section BuilderFacts.

Context {G : Geometry} {P : Projector}.

Lemma extract_geo_jams_rowwise (meta : Meta) (skip : Z) (limit : option Z)
    (main_buffer alt_buffer : float) :
  returned (extract_geo_jams meta skip limit main_buffer alt_buffer) =
  option_map (fun rs => {| rows := rs; geometry_name := col_jam_LineString |})
    (returned (mapM (geo_jam_of main_buffer alt_buffer) (jams_query meta skip limit))).
Proof.
  unfold extract_geo_jams.
  etransitivity.
  { eapply returned_assign_then; intro.
    eapply returned_assign_then; intro.
    eapply returned_assign_then; intro.
    eapply returned_assign_then; intro.
    eapply returned_assign_then; intro.
    apply (returned_pure_map
             (fun rs => {| rows := rs; geometry_name := col_jam_LineString |})). }
  reflexivity.
Qed.

Lemma extract_geo_sections_rowwise (meta : Meta) (main_buffer alt_buffer : float) :
  returned (extract_geo_sections meta main_buffer alt_buffer) =
  option_map (fun rs => {| rows := rs; geometry_name := col_section_LineString |})
    (returned (mapM (geo_section_of (Section_table meta) main_buffer alt_buffer)
                    (Section_table meta))).
Proof.
  unfold extract_geo_sections.
  etransitivity.
  { eapply returned_assign_then; intro.
    eapply returned_assign_then; intro.
    eapply returned_assign_then; intro.
    apply (returned_pure_map
             (fun rs => {| rows := rs; geometry_name := col_section_LineString |})). }
  reflexivity.
Qed.

Lemma extract_geo_jams_inv (meta : Meta) (skip : Z) (limit : option Z)
    (main_buffer alt_buffer : float) (gj : GeoDataFrame (GeoJam geom) JamGeometryColumn) :
  extract_geo_jams meta skip limit main_buffer alt_buffer = Returned gj ->
  geometry_name gj = col_jam_LineString /\
  mapM (geo_jam_of main_buffer alt_buffer) (jams_query meta skip limit) =
    Returned (rows gj).
Proof.
  intro H. apply returned_Some in H. rewrite extract_geo_jams_rowwise in H.
  destruct (mapM _ _) as [rs|]; [|discriminate].
  injection H as <-. split; reflexivity.
Qed.

Lemma extract_geo_sections_inv (meta : Meta) (main_buffer alt_buffer : float)
    (gs : GeoDataFrame (GeoSection geom) SectionGeometryColumn) :
  extract_geo_sections meta main_buffer alt_buffer = Returned gs ->
  geometry_name gs = col_section_LineString /\
  mapM (geo_section_of (Section_table meta) main_buffer alt_buffer) (Section_table meta) =
    Returned (rows gs).
Proof.
  intro H. apply returned_Some in H. rewrite extract_geo_sections_rowwise in H.
  destruct (mapM _ _) as [rs|]; [|discriminate].
  injection H as <-. split; reflexivity.
Qed.

(** What a built jam row holds. *)
Lemma geo_jam_of_inv (main_buffer alt_buffer : float) (r : JamRow) (j : GeoJam geom) :
  geo_jam_of main_buffer alt_buffer r = Returned j ->
  jam_row j = r /\
  exists main alt : geom,
    LineString_buffer (jams_line_UTM j) main_buffer = Returned main /\
    LineString_buffer (jams_line_UTM j) alt_buffer = Returned alt /\
    jam_LineString j = to_crs main /\ jam_alt_LineString j = alt.
Proof.
  unfold geo_jam_of.
  destruct (line_list _) as [ll|]; [|discriminate]. cbn [bind].
  destruct (lon_lat_to_UTM ll) as [utm|]; [|discriminate]. cbn [bind].
  destruct (LineString_buffer utm main_buffer) as [m|] eqn:Em; [|discriminate]. cbn [bind].
  destruct (LineString_buffer utm alt_buffer) as [a|] eqn:Ea; [|discriminate]. cbn [bind].
  destruct (get_direction _) as [d|]; [|discriminate]. cbn [bind].
  intro H. injection H as <-. cbn. split; [reflexivity|].
  exists m, a. repeat split; assumption.
Qed.

(** What a built section row holds. *)
Lemma geo_section_of_inv (df : list SectionRow) (main_buffer alt_buffer : float)
    (r : SectionRow) (s : GeoSection geom) :
  geo_section_of df main_buffer alt_buffer r = Returned s ->
  section_row s = r /\
  StreetDirection s = StreetDirection_of df r /\
  SectionDirection s = SectionDirection_of r /\
  exists main alt : geom,
    LineString_buffer (Street_line_XY (section_row s)) main_buffer = Returned main /\
    LineString_buffer (Street_line_XY (section_row s)) alt_buffer = Returned alt /\
    section_LineString s = to_crs main /\ section_alt_LineString s = alt.
Proof.
  unfold geo_section_of.
  destruct (UTM_to_lon_lat _) as [ll|]; [|discriminate]. cbn [bind].
  destruct (LineString_buffer _ main_buffer) as [m|] eqn:Em; [|discriminate]. cbn [bind].
  destruct (LineString_buffer _ alt_buffer) as [a|] eqn:Ea; [|discriminate]. cbn [bind].
  intro H. injection H as <-. cbn. repeat split.
  exists m, a. repeat split; assumption.
Qed.

Lemma extract_geo_jams_row (meta : Meta) (skip : Z) (limit : option Z)
    (main_buffer alt_buffer : float) (gj : GeoDataFrame (GeoJam geom) JamGeometryColumn)
    (j : GeoJam geom) :
  extract_geo_jams meta skip limit main_buffer alt_buffer = Returned gj ->
  In j (rows gj) ->
  exists main alt : geom,
    LineString_buffer (jams_line_UTM j) main_buffer = Returned main /\
    LineString_buffer (jams_line_UTM j) alt_buffer = Returned alt /\
    jam_LineString j = to_crs main /\ jam_alt_LineString j = alt.
Proof.
  intros H Hj. apply extract_geo_jams_inv in H as [_ H].
  destruct (mapM_In _ _ _ H Hj) as (r & _ & Hr).
  apply geo_jam_of_inv in Hr as [_ Hr]. exact Hr.
Qed.

Lemma extract_geo_sections_row (meta : Meta) (main_buffer alt_buffer : float)
    (gs : GeoDataFrame (GeoSection geom) SectionGeometryColumn) (s : GeoSection geom) :
  extract_geo_sections meta main_buffer alt_buffer = Returned gs ->
  In s (rows gs) ->
  exists main alt : geom,
    LineString_buffer (Street_line_XY (section_row s)) main_buffer = Returned main /\
    LineString_buffer (Street_line_XY (section_row s)) alt_buffer = Returned alt /\
    section_LineString s = to_crs main /\ section_alt_LineString s = alt.
Proof.
  intros H Hs. apply extract_geo_sections_inv in H as [_ H].
  destruct (mapM_In _ _ _ H Hs) as (r & _ & Hr).
  apply geo_section_of_inv in Hr as (_ & _ & _ & Hr). exact Hr.
Qed.

(** A page holding a jam with an empty coordinate list does not build:
    whatever the geometry library makes of the empty line, [get_direction]
    raises on it. *)
Lemma extract_geo_jams_empty_coordinates_abort (meta : Meta) (skip : Z)
    (limit : option Z) (main_buffer alt_buffer : float) (r : JamRow) :
  In r (jams_query meta skip limit) ->
  JamDscCoordinatesLonLat r = CoordList [] ->
  returned (extract_geo_jams meta skip limit main_buffer alt_buffer) = None.
Proof.
  intros Hr E. rewrite extract_geo_jams_rowwise.
  rewrite (mapM_raises _ _ _ Hr); [reflexivity|].
  unfold geo_jam_of. rewrite E. cbn.
  destruct (LineString_buffer [] main_buffer); [|reflexivity]. cbn.
  destruct (LineString_buffer [] alt_buffer); reflexivity.
Qed.

(** A page holding a jam whose coordinates have no length does not build
    either: listing its points raises before any direction is computed. *)
Lemma extract_geo_jams_no_coordinates_abort (meta : Meta) (skip : Z)
    (limit : option Z) (main_buffer alt_buffer : float) (r : JamRow) :
  In r (jams_query meta skip limit) ->
  JamDscCoordinatesLonLat r = NoLen ->
  returned (extract_geo_jams meta skip limit main_buffer alt_buffer) = None.
Proof.
  intros Hr E. rewrite extract_geo_jams_rowwise.
  rewrite (mapM_raises _ _ _ Hr); [reflexivity|].
  unfold geo_jam_of. rewrite E. reflexivity.
Qed.

End BuilderFacts.

(** ** One batch, tier by tier *)

Lemma NoDup_map_injective {A B} (f : A -> B) (l : list A) (a b : A) :
  NoDup (map f l) -> In a l -> In b l -> f a = f b -> a = b.
Proof.
  induction l as [|c l IH]; intros Hnd Ha Hb E; [destruct Ha|].
  cbn in Hnd. inversion Hnd as [|? ? Hc Hnd']; subst.
  destruct Ha as [->|Ha], Hb as [->|Hb].
  - reflexivity.
  - exfalso. apply Hc. rewrite E. apply in_map, Hb.
  - exfalso. apply Hc. rewrite <- E. apply in_map, Ha.
  - apply IH; assumption.
Qed.

Lemma flat_map_filter {A B} (p : A -> bool) (f : A -> list B) (l : list A) :
  flat_map f (filter p l) = flat_map (fun a => if p a then f a else []) l.
Proof.
  induction l as [|a l IH]; [reflexivity|].
  cbn. destruct (p a); cbn; rewrite IH; reflexivity.
Qed.

Lemma filter_flat_map {A B} (p : B -> bool) (f : A -> list B) (l : list A) :
  filter p (flat_map f l) = flat_map (fun a => filter p (f a)) l.
Proof.
  induction l as [|a l IH]; [reflexivity|].
  cbn. rewrite filter_app, IH. reflexivity.
Qed.

Lemma filter_map_pair {A B} (p : A * B -> bool) (a : A) (l : list B) :
  filter p (map (fun b => (a, b)) l) = map (fun b => (a, b)) (filter (fun b => p (a, b)) l).
Proof.
  induction l as [|b l IH]; [reflexivity|].
  cbn. destruct (p (a, b)); cbn; rewrite IH; reflexivity.
Qed.

Lemma filter_filter {A} (p q : A -> bool) (l : list A) :
  filter q (filter p l) = filter (fun a => p a && q a) l.
Proof.
  induction l as [|a l IH]; [reflexivity|].
  cbn. destruct (p a); cbn; [destruct (q a)|]; rewrite IH; reflexivity.
Qed.

Section MatcherFacts.

Context {G : Geometry} {P : Projector}.

Implicit Types (left : JamFrame) (right : SectionFrame) (j : GeoJam geom) (s : GeoSection geom).

Lemma dropna_sjoin_left (op : geom -> geom -> bool) left right :
  dropna (sjoin_left op left right) = sjoin_inner op left right.
Proof.
  unfold dropna, sjoin_left, sjoin_inner.
  induction (rows left) as [|j l IH]; [reflexivity|].
  cbn [flat_map]. rewrite flat_map_app, IH. f_equal.
  destruct (sjoin_matches op left right j) as [|s ms]; [reflexivity|].
  generalize (s :: ms). intro l0.
  induction l0 as [|s0 l0 IH0]; [reflexivity|]. cbn. rewrite <- IH0. reflexivity.
Qed.

Lemma ids_not_located_sjoin_left (op : geom -> geom -> bool) left right :
  ids_not_located (sjoin_left op left right) =
  JamIds (filter (fun j => isnil (sjoin_matches op left right j)) (rows left)).
Proof.
  unfold ids_not_located, sjoin_left, JamIds.
  induction (rows left) as [|j l IH]; [reflexivity|].
  cbn [flat_map filter]. rewrite flat_map_app, IH.
  destruct (sjoin_matches op left right j) as [|s ms]; [reflexivity|].
  cbn [isnil app]. rewrite <- app_nil_l. f_equal.
  generalize (s :: ms). intro l0.
  induction l0 as [|s0 l0 IH0]; [reflexivity|]. cbn. exact IH0.
Qed.

(** Selecting by identifier what was selected by a test gives the same
    rows back when identifiers are unique. *)
Lemma isin_filter (p : GeoJam geom -> bool) (l : list (GeoJam geom)) :
  NoDup (JamIds l) ->
  filter (fun j => existsb (Z.eqb (JamId (jam_row j))) (JamIds (filter p l))) l =
  filter p l.
Proof.
  intro Hnd. apply filter_ext_in. intros j Hj.
  apply Bool.eq_iff_eq_true. rewrite existsb_exists. split.
  - intros (i & Hi & E). apply Z.eqb_eq in E. unfold JamIds in Hi.
    apply in_map_iff in Hi as (j' & E' & Hj'). apply filter_In in Hj' as [Hj' Hp].
    assert (j' = j) as <-; [|exact Hp].
    apply (NoDup_map_injective (fun j => JamId (jam_row j)) l); auto. congruence.
  - intro Hp. exists (JamId (jam_row j)). split; [|apply Z.eqb_refl].
    unfold JamIds. apply in_map_iff. exists j. split; [reflexivity|].
    apply filter_In. auto.
Qed.

(** A row a test selects is among the rows selected by its identifier. *)
Lemma isin_filter_In (p : GeoJam geom -> bool) (l : list (GeoJam geom)) j :
  In j l -> p j = true ->
  In j (filter (fun j => existsb (Z.eqb (JamId (jam_row j))) (JamIds (filter p l))) l).
Proof.
  intros Hj Hp. apply filter_In. split; [exact Hj|].
  apply existsb_exists. exists (JamId (jam_row j)). split; [|apply Z.eqb_refl].
  unfold JamIds. apply in_map_iff. exists j. split; [reflexivity|].
  apply filter_In. auto.
Qed.

Lemma in_rows_of (tier : list (GeoSection geom) -> GeoJam geom -> list (GeoSection geom))
    (sections : list (GeoSection geom)) (jams : list (GeoJam geom)) j s :
  In (j, s) (rows_of tier sections jams) <-> In j jams /\ In s (tier sections j).
Proof.
  unfold rows_of. rewrite in_flat_map. split.
  - intros (j' & Hj' & H). apply in_map_iff in H as (s' & E & Hs').
    injection E as -> ->. auto.
  - intros [Hj Hs]. exists j. split; [exact Hj|]. apply in_map. exact Hs.
Qed.

Lemma in_sjoin_inner (op : geom -> geom -> bool) left right j s :
  In (j, s) (sjoin_inner op left right) <->
  In j (rows left) /\ In s (rows right) /\
  op (jam_geometry (geometry_name left) j)
     (section_geometry (geometry_name right) s) = true.
Proof.
  unfold sjoin_inner, sjoin_matches. rewrite in_flat_map. split.
  - intros (j' & Hj' & H). apply in_map_iff in H as (s' & E & Hs').
    injection E as -> ->. apply filter_In in Hs'. tauto.
  - intros (Hj & Hs & Hop). exists j. split; [exact Hj|].
    apply in_map, filter_In. auto.
Qed.

Section OneBatch.

Variables (geo_jams : JamFrame) (geo_sections : SectionFrame).
Hypothesis jams_active : geometry_name geo_jams = col_jam_LineString.
Hypothesis sections_active : geometry_name geo_sections = col_section_LineString.

Let b : Batch geom := match_batch geo_jams geo_sections.
Let sections : list (GeoSection geom) := rows geo_sections.
Let jams : list (GeoJam geom) := rows geo_jams.


Lemma contains_rows : jams_per_section_contains b = rows_of tierA sections jams.
Proof.
  subst b sections jams. unfold match_batch. cbn [jams_per_section_contains].
  rewrite dropna_sjoin_left. unfold sjoin_inner, sjoin_matches, rows_of, tierA.
  rewrite jams_active, sections_active. reflexivity.
Qed.

Lemma ids_not_located_contains_eq :
  ids_not_located_contains b = JamIds (filter (fun j => isnil (tierA sections j)) jams).
Proof.
  subst b sections jams. unfold match_batch. cbn [ids_not_located_contains].
  rewrite ids_not_located_sjoin_left. unfold sjoin_matches, tierA.
  rewrite jams_active, sections_active. reflexivity.
Qed.

Lemma left_from_contains_rows :
  rows (jams_left_from_contains b) =
  filter (fun j => existsb (Z.eqb (JamId (jam_row j)))
                     (JamIds (filter (fun j => isnil (tierA sections j)) jams))) jams.
Proof.
  rewrite <- ids_not_located_contains_eq. reflexivity.
Qed.

(** A jam without a tier A match is handed to tier B. *)
Lemma unmatched_in_left_from_contains j :
  In j jams -> tierA sections j = [] -> In j (rows (jams_left_from_contains b)).
Proof.
  intros Hj E. rewrite left_from_contains_rows.
  apply isin_filter_In; [exact Hj|]. rewrite E. reflexivity.
Qed.

Lemma in_within_rows j s :
  In (j, s) (jams_per_section_within b) <->
  In j (rows (jams_left_from_contains b)) /\ In s sections /\
  within (jam_alt_LineString j) (section_alt_LineString s) = true.
Proof.
  subst b sections jams. unfold match_batch.
  cbn [jams_per_section_within jams_left_from_contains].
  rewrite dropna_sjoin_left, in_sjoin_inner. reflexivity.
Qed.

Lemma in_intersects_rows j s :
  In (j, s) (jams_per_section_intersects b) <->
  In j (rows (jams_left_from_within b)) /\ In s sections /\
  intersects (jam_LineString j) (section_LineString s) = true /\
  check_directions (j, s) = true.
Proof.
  subst b sections jams. unfold match_batch.
  cbn [jams_per_section_intersects jams_left_from_within].
  rewrite filter_In, in_sjoin_inner. cbn [geometry_name loc_isin set_geometry].
  rewrite jams_active. cbn [jam_geometry section_geometry rows]. tauto.
Qed.

Lemma within_rows_pool :
  jams_per_section_within b =
  flat_map (fun j => map (fun s => (j, s))
              (filter (fun s => within (jam_alt_LineString j) (section_alt_LineString s))
                      sections))
           (rows (jams_left_from_contains b)).
Proof.
  subst b sections jams. unfold match_batch.
  cbn [jams_per_section_within jams_left_from_contains].
  rewrite dropna_sjoin_left. reflexivity.
Qed.

Lemma ids_not_located_within_eq :
  ids_not_located_within b =
  JamIds (filter (fun j => isnil
              (filter (fun s => within (jam_alt_LineString j) (section_alt_LineString s))
                      sections))
            (rows (jams_left_from_contains b))).
Proof.
  subst b sections jams. unfold match_batch.
  cbn [ids_not_located_within jams_left_from_contains].
  rewrite ids_not_located_sjoin_left. reflexivity.
Qed.

Lemma left_from_within_rows :
  rows (jams_left_from_within b) =
  filter (fun j => existsb (Z.eqb (JamId (jam_row j))) (ids_not_located_within b)) jams.
Proof. reflexivity. Qed.

Lemma intersects_rows_pool :
  jams_per_section_intersects b =
  filter check_directions
    (flat_map (fun j => map (fun s => (j, s))
                 (filter (fun s => intersects (jam_LineString j) (section_LineString s))
                         sections))
              (rows (jams_left_from_within b))).
Proof.
  subst b sections jams. unfold match_batch.
  cbn [jams_per_section_intersects jams_left_from_within].
  unfold sjoin_inner, sjoin_matches.
  cbn [geometry_name loc_isin set_geometry rows section_geometry].
  rewrite jams_active. reflexivity.
Qed.

(** With unique identifiers the identifier lists select exactly the jams
    that stayed without a match, and each tier is the row-wise one. *)
Section UniqueIds.

Hypothesis ids_unique : NoDup (JamIds jams).

Lemma left_from_contains_unique :
  rows (jams_left_from_contains b) = filter (fun j => isnil (tierA sections j)) jams.
Proof. rewrite left_from_contains_rows. apply isin_filter, ids_unique. Qed.

Lemma within_rows : jams_per_section_within b = rows_of tierB sections jams.
Proof.
  rewrite within_rows_pool, left_from_contains_unique, flat_map_filter.
  unfold rows_of. apply flat_map_ext. intro j. unfold tierB.
  destruct (isnil _); reflexivity.
Qed.

Lemma left_from_within_unique :
  rows (jams_left_from_within b) =
  filter (fun j => isnil (tierA sections j) && isnil (tierB sections j)) jams.
Proof.
  rewrite left_from_within_rows, ids_not_located_within_eq, left_from_contains_unique.
  rewrite filter_filter, isin_filter by exact ids_unique.
  apply filter_ext. intro j. unfold tierB.
  destruct (isnil (tierA _ j)); reflexivity.
Qed.

Lemma intersects_rows : jams_per_section_intersects b = rows_of tierC sections jams.
Proof.
  rewrite intersects_rows_pool, left_from_within_unique.
  rewrite filter_flat_map, flat_map_filter. unfold rows_of.
  apply flat_map_ext. intro j. unfold tierC.
  destruct (isnil (tierA _ j) && isnil (tierB _ j)); [|reflexivity].
  apply filter_map_pair.
Qed.


End UniqueIds.

End OneBatch.

End MatcherFacts.

(** ** The table behind a page *)

Lemma insert_by_date_perm (r : JamRow) (l : list JamRow) :
  Permutation (insert_by_date r l) (r :: l).
Proof.
  induction l as [|h t IH]; [reflexivity|].
  cbn. destruct (JamDateStart r <=? JamDateStart h)%Z; [reflexivity|].
  rewrite IH. apply perm_swap.
Qed.

Lemma order_by_JamDateStart_perm (l : list JamRow) :
  Permutation (order_by_JamDateStart l) l.
Proof.
  induction l as [|r l IH]; [reflexivity|].
  cbn. rewrite insert_by_date_perm, IH. reflexivity.
Qed.

Lemma NoDup_map_firstn {A B} (f : A -> B) (n : nat) (l : list A) :
  NoDup (map f l) -> NoDup (map f (firstn n l)).
Proof.
  intro H. rewrite <- (firstn_skipn n l), map_app in H.
  exact (NoDup_app_remove_r _ _ H).
Qed.

Lemma NoDup_map_skipn {A B} (f : A -> B) (n : nat) (l : list A) :
  NoDup (map f l) -> NoDup (map f (skipn n l)).
Proof.
  intro H. rewrite <- (firstn_skipn n l), map_app in H.
  exact (NoDup_app_remove_l _ _ H).
Qed.

Lemma jams_query_unique (meta : Meta) (skip : Z) (limit : option Z) :
  NoDup (map JamId (Jam meta)) -> NoDup (map JamId (jams_query meta skip limit)).
Proof.
  intro H. unfold jams_query.
  assert (Hs : NoDup (map JamId (skipn (Z.to_nat skip) (order_by_JamDateStart (Jam meta))))).
  { apply NoDup_map_skipn.
    eapply Permutation_NoDup; [|exact H].
    apply Permutation_map, Permutation_sym, order_by_JamDateStart_perm. }
  destruct limit; [apply NoDup_map_firstn|]; exact Hs.
Qed.

Section PageFacts.

Context {G : Geometry} {P : Projector}.

Lemma geo_jam_of_rows (main_buffer alt_buffer : float) (l : list JamRow) (gl : list (GeoJam geom)) :
  mapM (geo_jam_of main_buffer alt_buffer) l = Returned gl -> JamIds gl = map JamId l.
Proof.
  intro H. unfold JamIds. rewrite <- (map_map (@jam_row geom) JamId). f_equal.
  apply (mapM_map_inv (geo_jam_of main_buffer alt_buffer)); [|exact H].
  intros r j Hr. apply geo_jam_of_inv in Hr. tauto.
Qed.

Lemma extract_geo_jams_unique (meta : Meta) (skip : Z) (limit : option Z)
    (main_buffer alt_buffer : float) (gj : JamFrame) :
  NoDup (map JamId (Jam meta)) ->
  extract_geo_jams meta skip limit main_buffer alt_buffer = Returned gj ->
  NoDup (JamIds (rows gj)).
Proof.
  intros H E. apply extract_geo_jams_inv in E as [_ E].
  rewrite (geo_jam_of_rows _ _ _ E). apply jams_query_unique, H.
Qed.

Lemma check_directions_true (j : GeoJam geom) (s : GeoSection geom) :
  check_directions (j, s) = true <->
  MajorDirection j = Some (StreetDirection s) \/
  MajorDirection j = Some (SectionDirection s).
Proof.
  unfold check_directions, py_eq. cbn [fst snd].
  destruct (MajorDirection j) as [m|].
  - destruct (String.eqb_spec m (StreetDirection s)) as [->|N1]; [tauto|].
    destruct (String.eqb_spec m (SectionDirection s)) as [->|N2]; [tauto|].
    split; [discriminate|]. intros [E|E]; injection E; contradiction.
  - split; [discriminate|]. intros [E|E]; discriminate.
Qed.

End PageFacts.

(** ** The envelope instance obeys the buffer law *)

Lemma envelope_fat_buffer_reaches :
  @fat_buffer_reaches Envelope.geometry.
Proof.
  unfold fat_buffer_reaches. cbn. unfold Envelope.buffer.
  intros l l' thinJ fatJ thinS.
  destruct (Envelope.scaled 10) as [d10|] eqn:E10; [|vm_compute in E10; discriminate].
  destruct (Envelope.scaled 20) as [d20|] eqn:E20; [|vm_compute in E20; discriminate].
  assert (Hd : (d10 <= d20)%Z).
  { vm_compute in E10, E20. injection E10 as <-. injection E20 as <-.
    apply Z.leb_le. vm_compute. reflexivity. }
  clear E10 E20.
  destruct (Envelope.scaled_points l) as [[|p [|q l0]]|]; try discriminate.
  destruct (Envelope.scaled_points l') as [[|p' [|q' l0']]|]; try discriminate.
  intros H1 H2 H3. injection H1 as <-. injection H2 as <-. injection H3 as <-.
  unfold Envelope.rect_intersects, Envelope.grow. cbn [Envelope.xmin Envelope.xmax Envelope.ymin Envelope.ymax].
  rewrite !Bool.andb_true_iff, !Z.leb_le. lia.
Qed.

(** ** C1 *)

Import Envelope.

(** C1, counterexample.  In the town, with the envelope geometry, the jam
    along Rua Norte (identifier 11, from (0,-5) to (0,205)) is accepted in
    tier A against the first block of that street (identifier 1, from (0,0)
    to (0,100)), although the section's thin polygon does not contain the
    jam's fat polygon: it is the jam's polygon that contains the
    section's. *)
Lemma tierA_accepts_longer_jam :
  exists (gs : SectionFrame) (gj : JamFrame) (j : GeoJam geom) (s : GeoSection geom)
         (fatJ thinS : geom),
    extract_geo_sections Town.meta 10 20 = Returned gs /\
    extract_geo_jams Town.meta 0 (Some 20000%Z) 20 10 = Returned gj /\
    In j (rows gj) /\ In s (rows gs) /\
    JamId (jam_row j) = 11%Z /\ SctnId (section_row s) = 1%Z /\
    LineString_buffer (jams_line_UTM j) 20 = Returned fatJ /\
    LineString_buffer (Street_line_XY (section_row s)) 10 = Returned thinS /\
    In (j, s) (jams_per_section_contains (match_batch gj gs)) /\
    contains (to_crs thinS) (to_crs fatJ) = false.
Proof.
  do 6 eexists.
  split; [vm_compute; reflexivity|].
  split; [vm_compute; reflexivity|].
  split; [left; reflexivity|].
  split; [left; reflexivity|].
  split; [reflexivity|]. split; [reflexivity|].
  split; [vm_compute; reflexivity|].
  split; [vm_compute; reflexivity|].
  split; [vm_compute; left; reflexivity|].
  vm_compute. reflexivity.
Qed.

(** C1, as amended.  In tier A, for every jam and every section of a batch
    page, the pair is accepted if and only if the jam's fat buffer polygon
    (radius 20) contains the section's thin buffer polygon (radius 10),
    both reprojected. *)
Theorem tierA_accepts_iff_jam_contains_section
    {G : Geometry} {P : Projector}
    (meta : Meta) (skip : Z) (limit : option Z)
    (gs : SectionFrame) (gj : JamFrame) (j : GeoJam geom) (s : GeoSection geom) :
  extract_geo_sections meta 10 20 = Returned gs ->
  extract_geo_jams meta skip limit 20 10 = Returned gj ->
  In j (rows gj) -> In s (rows gs) ->
  exists fatJ thinS : geom,
    LineString_buffer (jams_line_UTM j) 20 = Returned fatJ /\
    LineString_buffer (Street_line_XY (section_row s)) 10 = Returned thinS /\
    (In (j, s) (jams_per_section_contains (match_batch gj gs)) <->
     contains (to_crs fatJ) (to_crs thinS) = true).
Proof.
  intros Es Ej Hj Hs.
  edestruct extract_geo_jams_row as (fatJ & _ & HfatJ & _ & EJ & _);
    [exact Ej | exact Hj |].
  edestruct extract_geo_sections_row as (thinS & _ & HthinS & _ & ES & _);
    [exact Es | exact Hs |].
  apply extract_geo_jams_inv in Ej as [Aj _].
  apply extract_geo_sections_inv in Es as [As _].
  exists fatJ, thinS. split; [exact HfatJ|]. split; [exact HthinS|].
  rewrite contains_rows, in_rows_of by assumption. unfold tierA.
  rewrite filter_In, EJ, ES. tauto.
Qed.

Lemma tierA_accepts_iff_jam_contains_section_witness :
  exists (gs : SectionFrame) (gj : JamFrame) (j : GeoJam geom) (s : GeoSection geom),
    JamId (jam_row j) = 11%Z /\ SctnId (section_row s) = 3%Z /\
    In (j, s) (jams_per_section_contains (match_batch gj gs)).
Proof.
  destruct (extract_geo_sections Town.meta 10 20) as [gs|] eqn:Es;
    [|vm_compute in Es; discriminate].
  destruct (extract_geo_jams Town.meta 0 (Some 20000%Z) 20 10) as [gj|] eqn:Ej;
    [|vm_compute in Ej; discriminate].
  pose proof Es as Es'. pose proof Ej as Ej'.
  vm_compute in Es', Ej'. injection Es' as <-. injection Ej' as <-.
  do 4 eexists. split; [|split]; cycle 2.
  - edestruct (@tierA_accepts_iff_jam_contains_section geometry projector)
      as (fatJ & thinS & H1 & H2 & H3);
      [exact Es | exact Ej | left; reflexivity | right; right; left; reflexivity |].
    apply H3. vm_compute in H1, H2.
    injection H1 as <-. injection H2 as <-. vm_compute. reflexivity.
  - reflexivity.
  - reflexivity.
Defined.

(** ** C6 *)

(** C6. In tier B, for every jam of the page that tier A left without a
    match and every section, the pair is accepted if and only if the jam's
    thin buffer polygon (radius 10) lies within the section's fat buffer
    polygon (radius 20). *)
Theorem tierB_accepts_iff_jam_within_section
    {G : Geometry} {P : Projector}
    (meta : Meta) (skip : Z) (limit : option Z)
    (gs : SectionFrame) (gj : JamFrame) (j : GeoJam geom) (s : GeoSection geom) :
  extract_geo_sections meta 10 20 = Returned gs ->
  extract_geo_jams meta skip limit 20 10 = Returned gj ->
  In j (rows gj) -> In s (rows gs) ->
  (forall s', ~ In (j, s') (jams_per_section_contains (match_batch gj gs))) ->
  exists thinJ fatS : geom,
    LineString_buffer (jams_line_UTM j) 10 = Returned thinJ /\
    LineString_buffer (Street_line_XY (section_row s)) 20 = Returned fatS /\
    (In (j, s) (jams_per_section_within (match_batch gj gs)) <->
     within thinJ fatS = true).
Proof.
  intros Es Ej Hj Hs Hun.
  edestruct extract_geo_jams_row as (_ & thinJ & _ & HthinJ & _ & EJ);
    [exact Ej | exact Hj |].
  edestruct extract_geo_sections_row as (_ & fatS & _ & HfatS & _ & ES);
    [exact Es | exact Hs |].
  apply extract_geo_jams_inv in Ej as [Aj _].
  apply extract_geo_sections_inv in Es as [As _].
  exists thinJ, fatS. split; [exact HthinJ|]. split; [exact HfatS|].
  assert (EA : tierA (rows gs) j = []).
  { destruct (tierA (rows gs) j) as [|s0 l] eqn:E; [reflexivity|].
    exfalso. apply (Hun s0). rewrite contains_rows, in_rows_of by assumption.
    split; [exact Hj|]. rewrite E. left. reflexivity. }
  rewrite in_within_rows, EJ, ES by assumption.
  assert (In j (rows (jams_left_from_contains (match_batch gj gs))))
    by (apply unmatched_in_left_from_contains; assumption).
  tauto.
Qed.

Lemma tierB_accepts_iff_jam_within_section_witness :
  exists (gs : SectionFrame) (gj : JamFrame) (j : GeoJam geom) (s : GeoSection geom),
    JamId (jam_row j) = 12%Z /\ SctnId (section_row s) = 2%Z /\
    In (j, s) (jams_per_section_within (match_batch gj gs)).
Proof.
  destruct (extract_geo_sections Town.meta 10 20) as [gs|] eqn:Es;
    [|vm_compute in Es; discriminate].
  destruct (extract_geo_jams Town.meta 0 (Some 20000%Z) 20 10) as [gj|] eqn:Ej;
    [|vm_compute in Ej; discriminate].
  pose proof Es as Es'. pose proof Ej as Ej'.
  vm_compute in Es', Ej'. injection Es' as <-. injection Ej' as <-.
  do 4 eexists. split; [|split]; cycle 2.
  - edestruct (@tierB_accepts_iff_jam_within_section geometry projector)
      as (thinJ & fatS & H1 & H2 & H3);
      [exact Es | exact Ej | right; left; reflexivity | right; left; reflexivity | |].
    + intros s' H. vm_compute in H.
      repeat (destruct H as [H|H]; [discriminate H|]). exact H.
    + apply H3. vm_compute in H1, H2.
      injection H1 as <-. injection H2 as <-. vm_compute. reflexivity.
  - reflexivity.
  - reflexivity.
Defined.

(** ** C5 *)

(** C5. In tier C, a pair of a jam that tiers A and B left without a match
    and a section whose thin buffers (radius 10) intersect is kept in the
    output if and only if the jam's major direction equals the section's
    street direction or its section direction; a jam that crosses a section
    with a major direction different from both is dropped although the
    buffers intersect.  The geometry library is assumed to make the
    polygon of radius 20 reach whatever the one of radius 10 reaches. *)
Theorem tierC_keeps_iff_direction_agrees
    {G : Geometry} {P : Projector}
    (meta : Meta) (skip : Z) (limit : option Z)
    (gs : SectionFrame) (gj : JamFrame) (j : GeoJam geom) (s : GeoSection geom)
    (thinJ thinS : geom) :
  fat_buffer_reaches ->
  extract_geo_sections meta 10 20 = Returned gs ->
  extract_geo_jams meta skip limit 20 10 = Returned gj ->
  In j (rows (jams_left_from_within (match_batch gj gs))) -> In s (rows gs) ->
  LineString_buffer (jams_line_UTM j) 10 = Returned thinJ ->
  LineString_buffer (Street_line_XY (section_row s)) 10 = Returned thinS ->
  intersects thinJ thinS = true ->
  (In (j, s) (jams_per_section_intersects (match_batch gj gs)) <->
   MajorDirection j = Some (StreetDirection s) \/
   MajorDirection j = Some (SectionDirection s)) /\
  (MajorDirection j <> Some (StreetDirection s) ->
   MajorDirection j <> Some (SectionDirection s) ->
   ~ In (j, s) (jams_per_section_intersects (match_batch gj gs))).
Proof.
  intros Law Es Ej Hpool Hs HthinJ HthinS Hmeet.
  assert (Hj : In j (rows gj)).
  { unfold match_batch in Hpool. cbn in Hpool. apply filter_In in Hpool. tauto. }
  edestruct extract_geo_jams_row as (fatJ & thinJ' & HfatJ & _ & EJ & _);
    [exact Ej | exact Hj |].
  edestruct extract_geo_sections_row as (thinS' & _ & HthinS' & _ & ES & _);
    [exact Es | exact Hs |].
  rewrite HthinS in HthinS'. injection HthinS' as <-.
  apply extract_geo_jams_inv in Ej as [Aj _].
  apply extract_geo_sections_inv in Es as [As _].
  pose proof (Law _ _ _ _ _ HthinJ HfatJ HthinS Hmeet) as Hreach.
  rewrite <- EJ, <- ES in Hreach.
  rewrite in_intersects_rows, check_directions_true by assumption.
  split; [tauto|]. intros N1 N2 H. tauto.
Qed.

Lemma tierC_keeps_iff_direction_agrees_witness :
  exists (gs : SectionFrame) (gj : JamFrame) (j : GeoJam geom)
         (s1 s2 : GeoSection geom),
    JamId (jam_row j) = 13%Z /\ SctnId (section_row s1) = 1%Z /\
    SctnId (section_row s2) = 2%Z /\
    ~ In (j, s1) (jams_per_section_intersects (match_batch gj gs)) /\
    In (j, s2) (jams_per_section_intersects (match_batch gj gs)).
Proof.
  destruct (extract_geo_sections Town.meta 10 20) as [gs|] eqn:Es;
    [|vm_compute in Es; discriminate].
  destruct (extract_geo_jams Town.meta 0 (Some 20000%Z) 20 10) as [gj|] eqn:Ej;
    [|vm_compute in Ej; discriminate].
  pose proof Es as Es'. pose proof Ej as Ej'.
  vm_compute in Es', Ej'. injection Es' as <-. injection Ej' as <-.
  do 5 eexists. split; [|split; [|split; [|split]]]; cycle 3.
  - edestruct (@tierC_keeps_iff_direction_agrees geometry projector)
      as [_ H];
      [exact envelope_fat_buffer_reaches | exact Es | exact Ej
      | vm_compute; left; reflexivity | left; reflexivity
      | vm_compute; reflexivity | vm_compute; reflexivity
      | vm_compute; reflexivity |].
    apply H; vm_compute; discriminate.
  - edestruct (@tierC_keeps_iff_direction_agrees geometry projector)
      as [H _];
      [exact envelope_fat_buffer_reaches | exact Es | exact Ej
      | vm_compute; left; reflexivity | right; left; reflexivity
      | vm_compute; reflexivity | vm_compute; reflexivity
      | vm_compute; reflexivity |].
    apply H. left. vm_compute. reflexivity.
  - reflexivity.
  - reflexivity.
  - reflexivity.
Defined.

(** ** C4 *)

Lemma isnil_false_of_In {A} (a : A) (l : list A) : In a l -> isnil l = false.
Proof. destruct l; [intros []|reflexivity]. Qed.

(** C4. Within one batch of a table whose jam identifiers are unique, the
    tiers partition the jams of the page: a jam accepted against some
    section in tier A is in the pool of neither tier B nor tier C; a jam
    accepted in tier B was left by tier A and is not in the pool of tier C;
    a jam accepted in tier C was left by tiers A and B.  Within a tier
    nothing limits a jam to one section: any two sections whose polygons
    the jam's polygon contains are both accepted for it in tier A. *)
Theorem tiers_partition_jams
    {G : Geometry} {P : Projector}
    (meta : Meta) (skip : Z) (limit : option Z)
    (gs : SectionFrame) (gj : JamFrame) (j : GeoJam geom) :
  NoDup (map JamId (Jam meta)) ->
  extract_geo_sections meta 10 20 = Returned gs ->
  extract_geo_jams meta skip limit 20 10 = Returned gj ->
  In j (rows gj) ->
  let b := match_batch gj gs in
  ((exists s, In (j, s) (jams_per_section_contains b)) ->
   ~ In j (rows (jams_left_from_contains b)) /\
   ~ In j (rows (jams_left_from_within b))) /\
  ((exists s, In (j, s) (jams_per_section_within b)) ->
   In j (rows (jams_left_from_contains b)) /\
   ~ In j (rows (jams_left_from_within b))) /\
  ((exists s, In (j, s) (jams_per_section_intersects b)) ->
   In j (rows (jams_left_from_contains b)) /\
   In j (rows (jams_left_from_within b))) /\
  (forall s1 s2 : GeoSection geom,
     In s1 (rows gs) -> In s2 (rows gs) ->
     contains (jam_LineString j) (section_LineString s1) = true ->
     contains (jam_LineString j) (section_LineString s2) = true ->
     In (j, s1) (jams_per_section_contains b) /\
     In (j, s2) (jams_per_section_contains b)).
Proof.
  intros Hkey Es Ej Hj b. subst b.
  assert (Hids : NoDup (JamIds (rows gj)))
    by (eapply extract_geo_jams_unique; eassumption).
  apply extract_geo_jams_inv in Ej as [Aj _].
  apply extract_geo_sections_inv in Es as [As _].
  rewrite contains_rows, within_rows, intersects_rows,
    left_from_contains_unique, left_from_within_unique by assumption.
  split; [|split; [|split]].
  - intros (s & Hs). apply in_rows_of in Hs as [_ Hs].
    apply isnil_false_of_In in Hs.
    split; intro H; apply filter_In in H as [_ H]; rewrite Hs in H; discriminate.
  - intros (s & Hs). apply in_rows_of in Hs as [_ Hs].
    assert (EA : isnil (tierA (rows gs) j) = true).
    { unfold tierB in Hs. destruct (isnil (tierA (rows gs) j)); [reflexivity|destruct Hs]. }
    apply isnil_false_of_In in Hs. split.
    + apply filter_In. auto.
    + intro H. apply filter_In in H as [_ H].
      rewrite Hs, Bool.andb_false_r in H. discriminate.
  - intros (s & Hs). apply in_rows_of in Hs as [_ Hs].
    assert (E : isnil (tierA (rows gs) j) && isnil (tierB (rows gs) j) = true).
    { unfold tierC in Hs.
      destruct (isnil (tierA (rows gs) j) && isnil (tierB (rows gs) j));
        [reflexivity|destruct Hs]. }
    split; apply filter_In; split; try exact Hj; try exact E.
    apply Bool.andb_true_iff in E. tauto.
  - intros s1 s2 H1 H2 C1 C2.
    split; apply in_rows_of; (split; [exact Hj|]); apply filter_In; auto.
Qed.

Lemma town_ids_unique : NoDup (map JamId (Jam Town.meta)).
Proof.
  cbn. repeat (apply NoDup_cons;
    [cbn; intro H; repeat (destruct H as [H|H]; [discriminate H|]); exact H|]).
  apply NoDup_nil.
Qed.

Lemma tiers_partition_jams_witness :
  exists (gs : SectionFrame) (gj : JamFrame) (j : GeoJam geom)
         (s1 s3 : GeoSection geom),
    JamId (jam_row j) = 11%Z /\ SctnId (section_row s1) = 1%Z /\
    SctnId (section_row s3) = 3%Z /\
    In (j, s1) (jams_per_section_contains (match_batch gj gs)) /\
    In (j, s3) (jams_per_section_contains (match_batch gj gs)) /\
    ~ In j (rows (jams_left_from_contains (match_batch gj gs))) /\
    ~ In j (rows (jams_left_from_within (match_batch gj gs))).
Proof.
  destruct (extract_geo_sections Town.meta 10 20) as [gs|] eqn:Es;
    [|vm_compute in Es; discriminate].
  destruct (extract_geo_jams Town.meta 0 (Some 20000%Z) 20 10) as [gj|] eqn:Ej;
    [|vm_compute in Ej; discriminate].
  pose proof Es as Es'. pose proof Ej as Ej'.
  vm_compute in Es', Ej'. injection Es' as <-. injection Ej' as <-.
  do 5 eexists.
  edestruct (@tiers_partition_jams geometry projector)
    as (HA & _ & _ & Hmany);
    [exact town_ids_unique | exact Es | exact Ej | left; reflexivity |].
  edestruct Hmany as [H1 H3];
    [left; reflexivity | right; right; left; reflexivity
    | vm_compute; reflexivity | vm_compute; reflexivity |].
  split; [|split; [|split; [|split; [|split]]]]; cycle 3.
  - exact H1.
  - exact H3.
  - apply HA. eexists. exact H1.
  - reflexivity.
  - reflexivity.
  - reflexivity.
Defined.

(** ** C8 *)

Lemma three_way_shuffle {A} (a1 a2 b1 b2 c1 c2 : list A) :
  Permutation ((a1 ++ a2) ++ (b1 ++ b2) ++ (c1 ++ c2))
              ((a1 ++ b1 ++ c1) ++ (a2 ++ b2 ++ c2)).
Proof.
  rewrite <- !app_assoc. apply Permutation_app_head.
  rewrite Permutation_app_swap_app. apply Permutation_app_head.
  rewrite (app_assoc a2 b2), Permutation_app_swap_app, <- app_assoc.
  reflexivity.
Qed.


Section Pagination.

Context {G : Geometry} {P : Projector}.

Variables (meta : Meta) (gs : SectionFrame) (batch_size : Z).
Hypothesis sections_active : geometry_name gs = col_section_LineString.
Hypothesis batch_size_positive : (0 < batch_size)%Z.

Let ordered : list JamRow := order_by_JamDateStart (Jam meta).








End Pagination.


(** A run that raises keeps what the earlier batches stored: nothing is
    rolled back.  With one jam per batch the rows of the first jam are
    stored before the jam without points aborts the second batch; with both
    jams in one batch nothing is stored. *)
Lemma store_jps_abort_keeps_stored_batches :
  fst (store_jps Town.meta_with_gap 1) = [(1000, "a", 1); (1000, "a", 3)]%Z%string /\
  returned (snd (store_jps Town.meta_with_gap 1)) = None /\
  fst (store_jps Town.meta_with_gap 2) = [] /\
  returned (snd (store_jps Town.meta_with_gap 2)) = None.
Proof. repeat split; vm_compute; reflexivity. Qed.


(** * Further properties of the code *)

(** ** [get_direction]: when it raises and what it returns *)

Lemma get_direction_nonempty (p : coord) (l : list coord) :
  exists first last : coord,
    get_direction (CoordList (p :: l)) = get_direction (CoordList [first; last]).
Proof.
  destruct l as [|q l].
  - exists p, p. reflexivity.
  - destruct (@exists_last _ (q :: l)) as (mid & last & E); [discriminate|].
    rewrite E. exists p, last. apply get_direction_ends.
Qed.

(** The three labels of a sequence that is classified. *)
Lemma get_direction_labels (l : list coord) (d : Series) :
  get_direction (CoordList l) = Returned d ->
  l <> [] /\
  exists lon lat major : string,
    d = [Some lon; Some lat; Some major] /\
    (lon = "Leste" \/ lon = "Oeste")%string /\
    (lat = "Norte" \/ lat = "Sul")%string /\
    (major = "Norte/Sul" \/ major = "Leste/Oeste")%string.
Proof.
  destruct l as [|p l]; [discriminate|]. intro H. split; [discriminate|].
  destruct (get_direction_nonempty p l) as (first & last & E).
  rewrite E in H. unfold get_direction in H. cbn in H.
  injection H as <-. do 3 eexists. split; [reflexivity|].
  repeat split;
    match goal with |- context [if ?c then _ else _] => destruct c end; auto.
Qed.

(** X1. [get_direction] raises on exactly one input, the empty list, and
    the exception is the IndexError of [coord_list[0]]; on a value without
    length and on every non-empty list it returns. *)
Theorem get_direction_raises_only_on_empty (c : coord_obj) (e : exn) :
  get_direction c = Raised e <-> c = CoordList [] /\ e = IndexError.
Proof.
  split.
  - destruct c as [|[|p l]].
    + discriminate.
    + cbn. intro H. injection H as <-. auto.
    + destruct (get_direction_nonempty p l) as (first & last & E).
      rewrite E. discriminate.
  - intros [-> ->]. reflexivity.
Qed.

(** ** What the builders put in a frame *)

Section FrameContents.

Context {G : Geometry} {P : Projector}.

Lemma geo_jam_of_directions (main_buffer alt_buffer : float) (r : JamRow)
    (j : GeoJam geom) :
  geo_jam_of main_buffer alt_buffer r = Returned j ->
  (exists l, JamDscCoordinatesLonLat r = CoordList l /\ l <> [] /\
             jams_line_list j = map (fun d => (x d, y d)) l) /\
  (LonDirection j = Some "Leste" \/ LonDirection j = Some "Oeste")%string /\
  (LatDirection j = Some "Norte" \/ LatDirection j = Some "Sul")%string /\
  (MajorDirection j = Some "Norte/Sul" \/ MajorDirection j = Some "Leste/Oeste")%string.
Proof.
  unfold geo_jam_of.
  destruct (JamDscCoordinatesLonLat r) as [|l] eqn:Ec; [discriminate|].
  cbn [line_list bind].
  destruct (lon_lat_to_UTM _) as [utm|]; [|discriminate]. cbn [bind].
  destruct (LineString_buffer utm main_buffer) as [m|]; [|discriminate]. cbn [bind].
  destruct (LineString_buffer utm alt_buffer) as [a|]; [|discriminate]. cbn [bind].
  destruct (get_direction (CoordList l)) as [d|] eqn:Ed; [|discriminate]. cbn [bind].
  intro H. injection H as <-. cbn.
  apply get_direction_labels in Ed as (Hl & lon & lat & major & -> & H1 & H2 & H3).
  cbn. split; [exists l; auto|].
  repeat split.
  - destruct H1 as [->| ->]; auto.
  - destruct H2 as [->| ->]; auto.
  - destruct H3 as [->| ->]; auto.
Qed.

End FrameContents.

(** X2. When [extract_geo_jams] returns, the frame has exactly one row
    per jam of the queried page, in the order of the query, and its active
    geometry is [jam_LineString]: no jam is dropped, repeated or
    reordered. *)
Theorem extract_geo_jams_keeps_rows
    {G : Geometry} {P : Projector}
    (meta : Meta) (skip : Z) (limit : option Z) (main_buffer alt_buffer : float)
    (gj : JamFrame) :
  extract_geo_jams meta skip limit main_buffer alt_buffer = Returned gj ->
  map (@jam_row geom) (rows gj) = jams_query meta skip limit /\
  geometry_name gj = col_jam_LineString.
Proof.
  intro H. apply extract_geo_jams_inv in H as [A H]. split; [|exact A].
  apply (mapM_map_inv (geo_jam_of main_buffer alt_buffer)); [|exact H].
  intros r j Hr. apply geo_jam_of_inv in Hr. tauto.
Qed.

Lemma extract_geo_jams_keeps_rows_witness :
  exists gj : JamFrame,
    map (fun j => JamId (jam_row j)) (rows gj) = [11; 12; 13; 14; 15]%Z.
Proof.
  destruct (extract_geo_jams Town.meta 0 (Some 20000%Z) 20 10) as [gj|] eqn:Ej;
    [|vm_compute in Ej; discriminate].
  exists gj.
  destruct (@extract_geo_jams_keeps_rows geometry projector _ _ _ _ _ _ Ej) as [H _].
  rewrite <- (map_map (@jam_row geom) JamId), H. reflexivity.
Defined.

(** X3. A jam frame never carries a null direction: in every row that
    [extract_geo_jams] returns the coordinate list is a non-empty list and
    the three direction columns hold labels of the fixed vocabulary. *)
Theorem extract_geo_jams_directions_defined
    {G : Geometry} {P : Projector}
    (meta : Meta) (skip : Z) (limit : option Z) (main_buffer alt_buffer : float)
    (gj : JamFrame) (j : GeoJam geom) :
  extract_geo_jams meta skip limit main_buffer alt_buffer = Returned gj ->
  In j (rows gj) ->
  (exists l, JamDscCoordinatesLonLat (jam_row j) = CoordList l /\ l <> []) /\
  (LonDirection j = Some "Leste" \/ LonDirection j = Some "Oeste")%string /\
  (LatDirection j = Some "Norte" \/ LatDirection j = Some "Sul")%string /\
  (MajorDirection j = Some "Norte/Sul" \/ MajorDirection j = Some "Leste/Oeste")%string.
Proof.
  intros H Hj. apply extract_geo_jams_inv in H as [_ H].
  destruct (mapM_In _ _ _ H Hj) as (r & _ & Hr).
  pose proof (geo_jam_of_inv _ _ _ Hr) as [E _].
  apply geo_jam_of_directions in Hr as ((l & Hl & Hne & _) & Hd).
  split; [|exact Hd]. exists l. rewrite E. auto.
Qed.

Lemma extract_geo_jams_directions_defined_witness :
  exists (gj : JamFrame) (j : GeoJam geom),
    In j (rows gj) /\ JamId (jam_row j) = 11%Z /\
    (MajorDirection j = Some "Norte/Sul" \/ MajorDirection j = Some "Leste/Oeste")%string.
Proof.
  destruct (extract_geo_jams Town.meta 0 (Some 20000%Z) 20 10) as [gj|] eqn:Ej;
    [|vm_compute in Ej; discriminate].
  exists gj. pose proof Ej as Ej'. vm_compute in Ej'. injection Ej' as <-.
  eexists. split; [left; reflexivity|]. split; [reflexivity|].
  edestruct (@extract_geo_jams_directions_defined geometry projector)
    as (_ & _ & _ & H); [exact Ej | left; reflexivity | exact H].
Defined.

(** X4. When [extract_geo_sections] returns, the frame has exactly one row
    per row of the Section table, in table order; each row carries the
    section's own bounding box, the direction of that box, and the
    direction of the box aggregated over the sections of the same street
    name, both from the two labels "Norte/Sul" and "Leste/Oeste". *)
Theorem extract_geo_sections_keeps_rows
    {G : Geometry} {P : Projector}
    (meta : Meta) (main_buffer alt_buffer : float) (gs : SectionFrame) :
  extract_geo_sections meta main_buffer alt_buffer = Returned gs ->
  map (@section_row geom) (rows gs) = Section_table meta /\
  geometry_name gs = col_section_LineString /\
  forall s, In s (rows gs) ->
    box s = section_bbox (section_row s) /\
    SectionDirection s = get_main_direction (box s) /\
    StreetDirection s =
      get_main_direction (street_bbox (Section_table meta) (SctnDscNome (section_row s))) /\
    (SectionDirection s = "Norte/Sul" \/ SectionDirection s = "Leste/Oeste")%string /\
    (StreetDirection s = "Norte/Sul" \/ StreetDirection s = "Leste/Oeste")%string.
Proof.
  intro H. apply extract_geo_sections_inv in H as [A H].
  split; [|split; [exact A|]].
  - apply (mapM_map_inv (geo_section_of (Section_table meta) main_buffer alt_buffer));
      [|exact H].
    intros r s Hr. apply geo_section_of_inv in Hr. tauto.
  - intros s Hs. destruct (mapM_In _ _ _ H Hs) as (r & _ & Hr).
    unfold geo_section_of in Hr.
    destruct (UTM_to_lon_lat _) as [ll|]; [|discriminate]. cbn [bind] in Hr.
    destruct (LineString_buffer _ main_buffer) as [m|]; [|discriminate]. cbn [bind] in Hr.
    destruct (LineString_buffer _ alt_buffer) as [a|]; [|discriminate]. cbn [bind] in Hr.
    injection Hr as <-. cbn.
    unfold StreetDirection_of, SectionDirection_of, get_main_direction.
    repeat split;
      try match goal with |- context [if ?c then _ else _] => destruct c end; auto.
Qed.

Lemma extract_geo_sections_keeps_rows_witness :
  exists gs : SectionFrame,
    map (fun s => SctnId (section_row s)) (rows gs) = [1; 2; 3]%Z.
Proof.
  destruct (extract_geo_sections Town.meta 10 20) as [gs|] eqn:Es;
    [|vm_compute in Es; discriminate].
  exists gs.
  destruct (@extract_geo_sections_keeps_rows geometry projector _ _ _ _ Es) as [H _].
  rewrite <- (map_map (@section_row geom) SctnId), H. reflexivity.
Defined.

(** X5. The direction filter is vacuous for a section whose own direction
    differs from its street's: the jam's major direction is one of the two
    labels and the section offers both, so [check_directions] keeps the
    pair whatever the jam. *)
Theorem check_directions_vacuous_on_bend
    {G : Geometry} {P : Projector}
    (meta : Meta) (skip : Z) (limit : option Z)
    (gs : SectionFrame) (gj : JamFrame) (j : GeoJam geom) (s : GeoSection geom) :
  extract_geo_sections meta 10 20 = Returned gs ->
  extract_geo_jams meta skip limit 20 10 = Returned gj ->
  In j (rows gj) -> In s (rows gs) ->
  StreetDirection s <> SectionDirection s ->
  check_directions (j, s) = true.
Proof.
  intros Es Ej Hj Hs Hne.
  apply extract_geo_jams_inv in Ej as [_ Ej].
  destruct (mapM_In _ _ _ Ej Hj) as (r & _ & Hr).
  apply geo_jam_of_directions in Hr as (_ & _ & _ & Hm).
  apply extract_geo_sections_inv in Es as [_ Es].
  destruct (mapM_In _ _ _ Es Hs) as (sr & _ & Hsr).
  apply geo_section_of_inv in Hsr as (_ & E1 & E2 & _).
  apply check_directions_true.
  assert (V1 : (StreetDirection s = "Norte/Sul" \/ StreetDirection s = "Leste/Oeste")%string).
  { rewrite E1. unfold StreetDirection_of, get_main_direction.
    match goal with |- context [if ?c then _ else _] => destruct c end; auto. }
  assert (V2 : (SectionDirection s = "Norte/Sul" \/ SectionDirection s = "Leste/Oeste")%string).
  { rewrite E2. unfold SectionDirection_of, get_main_direction.
    match goal with |- context [if ?c then _ else _] => destruct c end; auto. }
  destruct Hm as [-> | ->], V1 as [V1|V1], V2 as [V2|V2];
    rewrite V1, V2 in *; auto; contradiction.
Qed.

Lemma check_directions_vacuous_on_bend_witness :
  exists (gs : SectionFrame) (gj : JamFrame) (j : GeoJam geom) (s : GeoSection geom),
    In j (rows gj) /\ In s (rows gs) /\
    JamId (jam_row j) = 11%Z /\ SctnId (section_row s) = 4%Z /\
    check_directions (j, s) = true.
Proof.
  destruct (extract_geo_sections Bend.meta 10 20) as [gs|] eqn:Es;
    [|vm_compute in Es; discriminate].
  destruct (extract_geo_jams Bend.meta 0 (Some 20000%Z) 20 10) as [gj|] eqn:Ej;
    [|vm_compute in Ej; discriminate].
  exists gs, gj. pose proof Es as Es'. pose proof Ej as Ej'.
  vm_compute in Es', Ej'. injection Es' as <-. injection Ej' as <-.
  do 2 eexists. split; [left; reflexivity|].
  split; [right; right; left; reflexivity|].
  split; [reflexivity|]. split; [reflexivity|].
  eapply (@check_directions_vacuous_on_bend geometry projector);
    [exact Es | exact Ej | left; reflexivity
    | right; right; left; reflexivity | vm_compute; discriminate].
Defined.

(** ** The batch arithmetic of [store_jps] *)




Section Batching.

Variables (meta : Meta) (batch_size : Z).
Hypothesis batch_size_positive : (0 < batch_size)%Z.

Let ordered : list JamRow := order_by_JamDateStart (Jam meta).




End Batching.



(** ** Runs of [store_jps] *)

(** X8. A batch size that is not positive never stores anything: with 0
    the division raises once the sections are built, with a negative size
    the number of batches is not positive, the loop body never runs and
    the call returns normally. *)
Theorem store_jps_nonpositive_batch_size
    {G : Geometry} {P : Projector}
    (meta : Meta) (gs : SectionFrame) (batch_size : Z) :
  extract_geo_sections meta 10 20 = Returned gs ->
  (batch_size <= 0)%Z ->
  store_jps meta batch_size =
    ([], if (batch_size =? 0)%Z then Raised ZeroDivisionError else Returned tt).
Proof.
  intros Es Hb. unfold store_jps, number_batches. rewrite Es.
  destruct (Z.eqb_spec batch_size 0) as [->|Hne]; [reflexivity|].
  unfold range.
  set (total := Z.of_nat (List.length (Jam meta))).
  assert (H : (0 <= - total / batch_size)%Z).
  2: { replace (Z.to_nat (- (- total / batch_size))) with 0%nat by lia.
       reflexivity. }
  assert (E : (- total / batch_size = total / - batch_size)%Z).
  { rewrite <- (Z.div_opp_opp total (- batch_size)), Z.opp_involutive by lia.
    reflexivity. }
  rewrite E. apply Z.div_pos; lia.
Qed.

Lemma store_jps_nonpositive_batch_size_witness :
  store_jps Town.meta (-3) = ([], Returned tt) /\
  store_jps Town.meta 0 = ([], Raised ZeroDivisionError).
Proof.
  destruct (extract_geo_sections Town.meta 10 20) as [gs|] eqn:Es;
    [|vm_compute in Es; discriminate].
  split.
  - apply (@store_jps_nonpositive_batch_size geometry projector _ gs (-3) Es). lia.
  - apply (@store_jps_nonpositive_batch_size geometry projector _ gs 0 Es). lia.
Defined.



Section Runs.

Context {G : Geometry} {P : Projector}.

Variables (meta : Meta) (batch_size : Z).
Hypothesis batch_size_positive : (0 < batch_size)%Z.

Let ordered : list JamRow := order_by_JamDateStart (Jam meta).





End Runs.







(** ** What a run never stores *)

Section Provenance.

Context {G : Geometry} {P : Projector}.

Lemma batch_rows_are_pairs (gj : JamFrame) (gs : SectionFrame) (row : JamPerSectionRow) :
  In row (jams_per_section (match_batch gj gs)) ->
  exists j s, In j (rows gj) /\ In s (rows gs) /\ row = output_row (j, s).
Proof.
  unfold match_batch. cbn [jams_per_section]. intro H.
  apply in_map_iff in H as ([j s] & <- & H). exists j, s.
  rewrite !dropna_sjoin_left in H.
  apply in_app_or in H as [H|H]; [|apply in_app_or in H as [H|H]].
  - apply in_sjoin_inner in H. tauto.
  - apply in_sjoin_inner in H as (Hj & Hs & _). cbn in Hj, Hs.
    apply filter_In in Hj. tauto.
  - apply filter_In in H as [H _]. apply in_sjoin_inner in H as (Hj & Hs & _).
    cbn in Hj, Hs. apply filter_In in Hj. tauto.
Qed.

Lemma jams_query_incl (meta : Meta) (skip : Z) (limit : option Z) (r : JamRow) :
  In r (jams_query meta skip limit) -> In r (Jam meta).
Proof.
  unfold jams_query. intro H.
  assert (Hs : In r (skipn (Z.to_nat skip) (order_by_JamDateStart (Jam meta)))).
  { destruct limit as [n|]; [|exact H].
    rewrite <- (firstn_skipn (Z.to_nat n)). apply in_or_app. auto. }
  eapply Permutation_in; [apply order_by_JamDateStart_perm|].
  rewrite <- (firstn_skipn (Z.to_nat skip)). apply in_or_app. auto.
Qed.

Lemma batches_from_tables (meta : Meta) (batch_size : Z) (idx : list Z)
    (gs : SectionFrame) (stored : list JamPerSectionRow) :
  (forall s, In s (rows gs) -> In (section_row s) (Section_table meta)) ->
  Forall (from_tables meta) stored ->
  Forall (from_tables meta) (fst (batches meta batch_size idx gs stored)).
Proof.
  revert gs stored. induction idx as [|i idx IH]; intros gs stored Hgs Hst.
  - exact Hst.
  - cbn [batches].
    destruct (extract_geo_jams _ _ _ _ _) as [gj|e] eqn:Ej; [|exact Hst].
    apply IH.
    + exact Hgs.
    + apply Forall_app. split; [exact Hst|].
      apply Forall_forall. intros row Hrow.
      apply batch_rows_are_pairs in Hrow as (j & s & Hj & Hs & ->).
      apply extract_geo_jams_inv in Ej as [_ Ej].
      destruct (mapM_In _ _ _ Ej Hj) as (r & Hr & Er).
      apply geo_jam_of_inv in Er as [<- _].
      exists (jam_row j), (section_row s).
      split; [exact (jams_query_incl _ _ _ _ Hr)|].
      split; [exact (Hgs s Hs)|reflexivity].
Qed.

End Provenance.

(** X12. Whatever the batch size and whether or not the run returns, every
    row [store_jps] has stored pairs the start time and unique id of a row
    of the Jam table with the identifier of a row of the Section table: no
    row is made up, and a run that raises leaves only such rows behind. *)
Theorem store_jps_rows_come_from_tables
    {G : Geometry} {P : Projector}
    (meta : Meta) (batch_size : Z) (row : JamPerSectionRow) :
  In row (fst (store_jps meta batch_size)) ->
  exists r sr, In r (Jam meta) /\ In sr (Section_table meta) /\
               row = (JamDateStart r, JamUuid r, SctnId sr).
Proof.
  unfold store_jps.
  destruct (extract_geo_sections meta 10 20) as [gs|] eqn:Es; [|intros []].
  destruct (number_batches _ _) as [n|]; [|intros []].
  intro H.
  assert (Hall : Forall (from_tables meta) (fst (batches meta batch_size (range n) gs []))).
  { apply batches_from_tables; [|constructor].
    intros s Hs. apply extract_geo_sections_inv in Es as [_ Es].
    destruct (mapM_In _ _ _ Es Hs) as (sr & Hsr & E).
    apply geo_section_of_inv in E as [-> _]. exact Hsr. }
  rewrite Forall_forall in Hall. exact (Hall row H).
Qed.

Lemma store_jps_rows_come_from_tables_witness :
  exists r sr, In r (Jam Town.meta_with_gap) /\ In sr (Section_table Town.meta_with_gap) /\
               (1000%Z, "a"%string, 3%Z) = (JamDateStart r, JamUuid r, SctnId sr).
Proof.
  apply (@store_jps_rows_come_from_tables geometry projector Town.meta_with_gap 1).
  vm_compute. right. left. reflexivity.
Defined.
(** ** No pair twice *)

(** Selecting rows keeps a key column free of repetitions. *)
Lemma NoDup_key_filter {A K} (p : A -> bool) (key : A -> K) (l : list A)
    (H : NoDup (map key l)) : NoDup (map key (filter p l)).
Proof.
  induction l as [|a l IH]; cbn in *; [constructor|].
  inversion H as [|? ? Ha Hl]; subst.
  destruct (p a); cbn; [|exact (IH Hl)].
  constructor; [|exact (IH Hl)].
  intro Hin. apply Ha. apply in_map_iff in Hin as (b & E & Hb).
  apply filter_In in Hb as [Hb _]. rewrite <- E. apply in_map, Hb.
Qed.

Lemma NoDup_map_pair {A B} (a : A) (l : list B) :
  NoDup l -> NoDup (map (fun b => (a, b)) l).
Proof.
  induction 1 as [|b l Hb Hl IH]; cbn; constructor; [|exact IH].
  intro H. apply in_map_iff in H as (b' & E & Hb'). injection E as ->.
  exact (Hb Hb').
Qed.

Section NoPairTwice.

Context {G : Geometry} {P : Projector}.

Variable sections : list (GeoSection geom).
Hypothesis sections_unique : NoDup (map (fun s => SctnId (section_row s)) sections).

(** At most one tier holds sections for a jam, and a tier is a selection
    of the section frame. *)
Lemma tiers_of_jam_unique (j : GeoJam geom) :
  NoDup (map (fun s => SctnId (section_row s))
             (tierA sections j ++ tierB sections j ++ tierC sections j)).
Proof.
  unfold tierC, tierB. destruct (tierA sections j) as [|a la] eqn:EA.
  - cbn [isnil app andb].
    destruct (filter (fun s => within _ _) sections) as [|w lw] eqn:EB.
    + cbn [isnil app]. apply NoDup_key_filter, NoDup_key_filter, sections_unique.
    + cbn [isnil]. rewrite app_nil_r, <- EB.
      apply NoDup_key_filter, sections_unique.
  - cbn [isnil andb]. rewrite !app_nil_r, <- EA. unfold tierA.
    apply NoDup_key_filter, sections_unique.
Qed.

Lemma tiers_by_jam (jams : list (GeoJam geom)) :
  Permutation
    (rows_of tierA sections jams ++ rows_of tierB sections jams ++
     rows_of tierC sections jams)
    (flat_map (fun j => map (fun s => (j, s))
                 (tierA sections j ++ tierB sections j ++ tierC sections j)) jams).
Proof.
  unfold rows_of. induction jams as [|j jams IH]; [reflexivity|].
  cbn [flat_map]. rewrite three_way_shuffle, !map_app.
  apply Permutation_app; [reflexivity|exact IH].
Qed.

Lemma pairs_by_jam_unique (f : GeoJam geom -> list (GeoSection geom))
    (jams : list (GeoJam geom)) :
  NoDup (JamIds jams) ->
  (forall j, NoDup (map (fun s => SctnId (section_row s)) (f j))) ->
  NoDup (map pair_ids (flat_map (fun j => map (fun s => (j, s)) (f j)) jams)).
Proof.
  intros Hj Hf. induction jams as [|j jams IH]; [constructor|].
  cbn in Hj. inversion Hj as [|? ? Hnew Hrest]; subst.
  cbn [flat_map]. rewrite map_app. apply NoDup_app.
  - rewrite map_map. unfold pair_ids. cbn [fst snd].
    rewrite <- (map_map (fun s => SctnId (section_row s))
                        (fun i => (JamId (jam_row j), i))).
    apply NoDup_map_pair, Hf.
  - exact (IH Hrest).
  - intros [ij is_] H1 H2.
    apply in_map_iff in H1 as ([j1 s1] & E1 & H1).
    apply in_map_iff in H1 as (s1' & E1' & _). injection E1' as <- _.
    apply in_map_iff in H2 as ([j2 s2] & E2 & H2).
    apply in_flat_map in H2 as (j2' & Hj2 & H2).
    apply in_map_iff in H2 as (s2' & E2' & _). injection E2' as <- _.
    unfold pair_ids in E1, E2. cbn [fst snd] in E1, E2.
    injection E1 as E1 _. injection E2 as E2 _.
    apply Hnew. rewrite E1, <- E2. unfold JamIds.
    apply (in_map (fun j => JamId (jam_row j))), Hj2.
Qed.

Lemma page_pairs_unique (jams : list (GeoJam geom)) :
  NoDup (JamIds jams) ->
  NoDup (map pair_ids
           (rows_of tierA sections jams ++ rows_of tierB sections jams ++
            rows_of tierC sections jams)).
Proof.
  intro Hj. eapply Permutation_NoDup.
  - apply Permutation_map, Permutation_sym, tiers_by_jam.
  - apply pairs_by_jam_unique; [exact Hj|]. intro j. apply tiers_of_jam_unique.
Qed.

End NoPairTwice.

Lemma geo_section_of_rows {G : Geometry} {P : Projector}
    (df : list SectionRow) (main_buffer alt_buffer : float)
    (l : list SectionRow) (gl : list (GeoSection geom)) :
  mapM (geo_section_of df main_buffer alt_buffer) l = Returned gl ->
  map (fun s => SctnId (section_row s)) gl = map SctnId l.
Proof.
  intro H. rewrite <- (map_map (@section_row geom) SctnId). f_equal.
  apply (mapM_map_inv (geo_section_of df main_buffer alt_buffer)); [|exact H].
  intros r s Hr. apply geo_section_of_inv in Hr. tauto.
Qed.

Lemma town_sections_unique : NoDup (map SctnId (Section_table Town.meta)).
Proof.
  cbn. repeat (apply NoDup_cons;
    [cbn; intro H; repeat (destruct H as [H|H]; [discriminate H|]); exact H|]).
  apply NoDup_nil.
Qed.

(** X13. When both tables have unique identifiers, the three frames one
    batch concatenates never hold the same (JamId, SctnId) pair twice,
    neither inside a tier nor across tiers: no jam is stored twice against
    the same section. *)
Theorem match_batch_no_pair_twice
    {G : Geometry} {P : Projector}
    (meta : Meta) (skip : Z) (limit : option Z)
    (gs : SectionFrame) (gj : JamFrame) :
  NoDup (map JamId (Jam meta)) ->
  NoDup (map SctnId (Section_table meta)) ->
  extract_geo_sections meta 10 20 = Returned gs ->
  extract_geo_jams meta skip limit 20 10 = Returned gj ->
  let b := match_batch gj gs in
  NoDup (map pair_ids
           (jams_per_section_contains b ++ jams_per_section_within b ++
            jams_per_section_intersects b)).
Proof.
  intros Hjam Hsec Es Ej b. subst b.
  assert (Hids : NoDup (JamIds (rows gj)))
    by (eapply extract_geo_jams_unique; eassumption).
  apply extract_geo_jams_inv in Ej as [Aj _].
  apply extract_geo_sections_inv in Es as [As Es].
  rewrite contains_rows, within_rows, intersects_rows by assumption.
  apply page_pairs_unique; [|exact Hids].
  rewrite (geo_section_of_rows _ _ _ _ Es). exact Hsec.
Qed.

Lemma match_batch_no_pair_twice_witness :
  exists (gs : SectionFrame) (gj : JamFrame),
    extract_geo_sections Town.meta 10 20 = Returned gs /\
    extract_geo_jams Town.meta 0 (Some 20000%Z) 20 10 = Returned gj /\
    NoDup (map pair_ids
             (jams_per_section_contains (match_batch gj gs) ++
              jams_per_section_within (match_batch gj gs) ++
              jams_per_section_intersects (match_batch gj gs))).
Proof.
  destruct (extract_geo_sections Town.meta 10 20) as [gs|] eqn:Es;
    [|vm_compute in Es; discriminate].
  destruct (extract_geo_jams Town.meta 0 (Some 20000%Z) 20 10) as [gj|] eqn:Ej;
    [|vm_compute in Ej; discriminate].
  exists gs, gj. split; [reflexivity|]. split; [reflexivity|].
  exact (@match_batch_no_pair_twice geometry projector Town.meta 0 (Some 20000%Z)
           gs gj town_ids_unique town_sections_unique Es Ej).
Defined.

(** ** The two coordinate conversions *)

Section Conversions.

Context {P : Projector}.

Lemma lon_lat_to_UTM_cons (p : float * float) (l utm : list (float * float)) :
  lon_lat_to_UTM (p :: l) = Returned utm <->
  exists q utm', proj (fst p) (snd p) = Returned q /\
                 lon_lat_to_UTM l = Returned utm' /\ utm = q :: utm'.
Proof.
  unfold lon_lat_to_UTM. cbn [mapM]. destruct p as [lon lat]. cbn [fst snd].
  destruct (proj lon lat) as [q|]; cbn [bind].
  - destruct (mapM _ l) as [utm'|]; cbn [bind].
    + split.
      * intro H. injection H as <-. eauto.
      * intros (q' & u & H1 & H2 & ->). injection H1 as <-. injection H2 as <-.
        reflexivity.
    + split; [discriminate|]. intros (q' & u & _ & H2 & _). discriminate.
  - split; [discriminate|]. intros (q' & u & H1 & _). discriminate.
Qed.

End Conversions.

(** X14. [UTM_to_lon_lat] undoes [lon_lat_to_UTM] as far as the projection
    library undoes itself: if, on every point of a list, the inverse
    projection returns on what the forward projection returned and the
    point it gives is related to the original by [R] (equality, a
    tolerance), then converting the list forth and back returns a list of
    the same points in the same order, each related by [R] to its
    original.  The two loops add no error of their own, drop no point and
    reorder none. *)
Theorem UTM_round_trip_pointwise
    {P : Projector} (R : float * float -> float * float -> Prop)
    (l utm : list (float * float)) :
  (forall p q, In p l -> proj (fst p) (snd p) = Returned q ->
     exists p', proj_inverse (fst q) (snd q) = Returned p' /\ R p p') ->
  lon_lat_to_UTM l = Returned utm ->
  List.length utm = List.length l /\
  exists l', UTM_to_lon_lat utm = Returned l' /\ Forall2 R l l'.
Proof.
  revert utm. induction l as [|p l IH]; intros utm Hinv H.
  - injection H as <-. split; [reflexivity|]. exists []. split; [reflexivity|constructor].
  - apply lon_lat_to_UTM_cons in H as (q & utm' & Hq & Hl & ->).
    destruct (IH utm') as (Hlen & l' & Hl' & HR).
    + intros p0 q0 Hp0. apply Hinv. right. exact Hp0.
    + exact Hl.
    + destruct (Hinv p q (or_introl eq_refl) Hq) as (p' & Hp' & Hpp').
      split; [cbn; rewrite Hlen; reflexivity|].
      exists (p' :: l'). split; [|constructor; assumption].
      unfold UTM_to_lon_lat in *. cbn [mapM]. destruct q as [X Y].
      cbn [fst snd] in Hp'. rewrite Hp'. cbn [bind]. rewrite Hl'. reflexivity.
Qed.

Lemma UTM_round_trip_pointwise_witness :
  exists l' : list (float * float),
    UTM_to_lon_lat [(1, 2); (3, 4)]%float = Returned l' /\
    Forall2 eq [(1, 2); (3, 4)]%float l'.
Proof.
  apply (@UTM_round_trip_pointwise projector eq [(1, 2); (3, 4)]%float
           [(1, 2); (3, 4)]%float).
  - intros [a b] q _ H. cbn in H. injection H as <-. exists (a, b).
    split; reflexivity.
  - reflexivity.
Defined.

(** ** Tabulating the event lists *)

Section Tabulated.

Import Tabulate.

Variables R J : Type.

Lemma frames_returns (rows : list (R * list J)) (fs : list (list (Row R J))) :
  frames rows = Ok fs <->
  (forall r json, In (r, json) rows -> json <> []) /\
  fs = map (fun rj => map (fun j => (fst rj, snd rj, j)) (snd rj)) rows.
Proof.
  revert fs. induction rows as [|[r json] rows IH]; intro fs.
  - cbn. split.
    + intro H. injection H as <-. split; [intros ? ? []|reflexivity].
    + intros [_ ->]. reflexivity.
  - cbn [frames map fst snd]. destruct json as [|j0 json].
    + cbn. split; [discriminate|]. intros [H _].
      exfalso. exact (H r [] (or_introl eq_refl) eq_refl).
    + cbn [json_to_df]. destruct (frames rows) as [fs'|e] eqn:E.
      * destruct (proj1 (IH fs') eq_refl) as [Hne ->]. split.
        -- intro H. injection H as <-. split; [|reflexivity].
           intros r' json' [H|H]; [injection H as <- <-; discriminate|].
           exact (Hne r' json' H).
        -- intros [_ ->]. reflexivity.
      * split; [discriminate|]. intros [Hne _]. exfalso.
        enough (H : @Fail (list (list (Row R J))) e =
                    Ok (map (fun rj => map (fun j => (fst rj, snd rj, j)) (snd rj)) rows))
          by discriminate H.
        apply (proj2 (IH _)). split; [|reflexivity].
        intros r' json' H. apply (Hne r' json'). right. exact H.
Qed.

Lemma frames_fails (rows : list (R * list J)) (e : error) :
  frames rows = Fail e -> e = ValueError /\ exists r, In (r, []) rows.
Proof.
  induction rows as [|[r json] rows IH]; [discriminate|].
  cbn [frames]. destruct json as [|j0 json].
  - cbn. intro H. injection H as <-. split; [reflexivity|].
    exists r. left. reflexivity.
  - cbn [json_to_df]. destruct (frames rows) as [fs|e']; [discriminate|].
    intro H. injection H as <-. destruct (IH eq_refl) as [-> (r' & Hr')].
    split; [reflexivity|]. exists r'. right. exact Hr'.
Qed.

Lemma in_cleaned (records : list (R * option (list J))) (r : R) (json : list J) :
  In (r, json) (cleaned records) <-> In (r, Some json) records.
Proof.
  unfold cleaned. rewrite in_flat_map. split.
  - intros ([r' o] & Hin & H). cbn [fst snd] in H. destruct o as [json'|]; [|destruct H].
    destruct H as [H|[]]. injection H as <- <-. exact Hin.
  - intro H. exists (r, Some json). split; [exact H|]. left. reflexivity.
Qed.

End Tabulated.

(** X15. The body shared by [tabulate_jams], [tabulate_alerts] and
    [tabulate_irregularities] returns exactly when the column is present,
    at least one record holds a list, and no record holds an empty list;
    the frame it returns then has, record after record in the order of the
    input, one row per element of the record's list, and records whose
    cell is null contribute nothing. *)
Theorem tabulate_returns_iff
    (R J : Type) (raw_data : Tabulate.RawData R J) (out : list (Tabulate.Row R J)) :
  Tabulate.tabulate raw_data = Tabulate.Ok out <->
  exists records,
    raw_data = Tabulate.With records /\
    (exists r json, In (r, Some json) records) /\
    (forall r, ~ In (r, Some []) records) /\
    out = flat_map (fun rj => map (fun j => (fst rj, snd rj, j)) (snd rj))
                   (Tabulate.cleaned records).
Proof.
  unfold Tabulate.tabulate. destruct raw_data as [rs|records].
  - split; [discriminate|]. intros (records & H & _). discriminate.
  - destruct (Tabulate.frames (Tabulate.cleaned records)) as [fs|e] eqn:E.
    + apply frames_returns in E as [Hne ->].
      destruct (Tabulate.cleaned records) as [|[r json] rows] eqn:Ec.
      * cbn. split; [discriminate|].
        intros (records' & H & (r & json & Hin) & _). injection H as <-.
        apply in_cleaned in Hin. rewrite Ec in Hin. destruct Hin.
      * cbn [map]. split.
        -- intro H. injection H as <-. exists records. split; [reflexivity|].
           split; [|split].
           ++ exists r, json. apply in_cleaned. rewrite Ec. left. reflexivity.
           ++ intros r' Hin. apply in_cleaned in Hin. rewrite Ec in Hin.
              exact (Hne r' [] Hin eq_refl).
           ++ rewrite Ec. rewrite flat_map_concat_map. reflexivity.
        -- intros (records' & H & _ & _ & ->). injection H as <-.
           rewrite Ec, flat_map_concat_map. reflexivity.
    + split; [discriminate|].
      intros (records' & H & _ & Hne & _). injection H as <-.
      apply frames_fails in E as [_ (r & Hr)]. apply in_cleaned in Hr.
      exfalso. exact (Hne r Hr).
Qed.

(** X16. The shared body raises the bare [Exception] only when the column
    is absent; with the column present, a frame whose cells are all null
    or in which some record holds an empty list makes pandas raise
    [ValueError] instead, and no other failure exists. *)
Theorem tabulate_raises_iff
    (R J : Type) (raw_data : Tabulate.RawData R J) (e : Tabulate.error) :
  Tabulate.tabulate raw_data = Tabulate.Fail e <->
  (e = Tabulate.Exception_ /\ exists rs, raw_data = Tabulate.Without J rs) \/
  (e = Tabulate.ValueError /\
   exists records, raw_data = Tabulate.With records /\
     ((forall r json, ~ In (r, Some json) records) \/
      (exists r, In (r, Some []) records))).
Proof.
  unfold Tabulate.tabulate. destruct raw_data as [rs|records].
  - split.
    + intro H. injection H as <-. left. split; [reflexivity|]. exists rs. reflexivity.
    + intros [[-> _]|[_ (records & H & _)]]; [reflexivity|discriminate].
  - destruct (Tabulate.frames (Tabulate.cleaned records)) as [fs|e'] eqn:E.
    + apply frames_returns in E as [Hne ->].
      destruct (Tabulate.cleaned records) as [|[r json] rows] eqn:Ec.
      * cbn. split.
        -- intro H. injection H as <-. right. split; [reflexivity|].
           exists records. split; [reflexivity|]. left.
           intros r json Hin. apply in_cleaned in Hin. rewrite Ec in Hin. exact Hin.
        -- intros [[_ (rs & H)]|[-> _]]; [discriminate|reflexivity].
      * cbn [map]. split; [discriminate|].
        intros [[_ (rs & H)]|[_ (records' & H & [Hall|(r' & Hr')])]];
          [discriminate| |]; injection H as <-.
        -- exfalso. apply (Hall r json). apply in_cleaned. rewrite Ec.
           left. reflexivity.
        -- exfalso. apply in_cleaned in Hr'. rewrite Ec in Hr'.
           exact (Hne r' [] Hr' eq_refl).
    + apply frames_fails in E as [-> (r & Hr)]. apply in_cleaned in Hr. split.
      * intro H. injection H as <-. right. split; [reflexivity|].
        exists records. split; [reflexivity|]. right. exists r. exact Hr.
      * intros [[_ (rs & H)]|[-> _]]; [discriminate|reflexivity].
Qed.
(** ** A street of one section *)

Lemma is_nan_nan (v : float) : is_nan v = true -> v = nan.
Proof.
  unfold is_nan. rewrite eqb_spec. intro H. apply Prim2SF_inj.
  change (Prim2SF nan) with S754_nan.
  destruct (Prim2SF v) as [s|s| |s m e]; [| | reflexivity |]; exfalso.
  - discriminate H.
  - destruct s; discriminate H.
  - unfold SFeqb, SFcompare in H.
    destruct s; rewrite Z.compare_refl, Pos.compare_cont_refl in H; discriminate H.
Qed.

Lemma below_infinity (v : float) :
  is_nan v = false -> (v <? infinity)%float = true \/ v = infinity.
Proof.
  unfold is_nan. rewrite eqb_spec, ltb_spec.
  change (Prim2SF infinity) with (S754_infinity false). intro H.
  destruct (Prim2SF v) as [s|s| |s m e] eqn:E.
  - left. reflexivity.
  - destruct s; [left; reflexivity|]. right. apply Prim2SF_inj. exact E.
  - discriminate H.
  - left. reflexivity.
Qed.

Lemma above_neg_infinity (v : float) :
  is_nan v = false -> (neg_infinity <? v)%float = true \/ v = neg_infinity.
Proof.
  unfold is_nan. rewrite eqb_spec, ltb_spec.
  change (Prim2SF neg_infinity) with (S754_infinity true). intro H.
  destruct (Prim2SF v) as [s|s| |s m e] eqn:E.
  - left. reflexivity.
  - destruct s; [|left; reflexivity]. right. apply Prim2SF_inj. exact E.
  - discriminate H.
  - left. reflexivity.
Qed.

(** A group of one value aggregates to that value. *)
Lemma agg_min_single (v : float) : agg_min [v] = v.
Proof.
  unfold agg_min. cbn [forallb fold_left]. rewrite andb_true_r.
  destruct (is_nan v) eqn:E.
  - symmetry. apply is_nan_nan, E.
  - destruct (below_infinity v E) as [H| ->]; [rewrite H|]; reflexivity.
Qed.

Lemma agg_max_single (v : float) : agg_max [v] = v.
Proof.
  unfold agg_max. cbn [forallb fold_left]. rewrite andb_true_r.
  destruct (is_nan v) eqn:E.
  - symmetry. apply is_nan_nan, E.
  - destruct (above_neg_infinity v E) as [H| ->]; [rewrite H|]; reflexivity.
Qed.

(** X17. A street that has a single section gets the section's own
    direction: the group-wise minimum and maximum of one bounding box give
    the box back (missing values and infinities included), so both
    direction columns of that row agree and the second comparison of
    [check_directions] can add nothing for it. *)
Theorem single_section_street_direction (df_sections : list SectionRow) (r : SectionRow) :
  filter (fun r' => String.eqb (SctnDscNome r') (SctnDscNome r)) df_sections = [r] ->
  street_bbox df_sections (SctnDscNome r) = section_bbox r /\
  StreetDirection_of df_sections r = SectionDirection_of r.
Proof.
  intro H.
  assert (E : street_bbox df_sections (SctnDscNome r) = section_bbox r).
  { unfold street_bbox. rewrite H. cbn [map].
    rewrite !agg_min_single, !agg_max_single. destruct (section_bbox r). reflexivity. }
  split; [exact E|].
  unfold StreetDirection_of, SectionDirection_of. rewrite E. reflexivity.
Qed.

Lemma single_section_street_direction_witness :
  street_bbox (Section_table Town.meta) "Rua Leste" = section_bbox Town.S2 /\
  StreetDirection_of (Section_table Town.meta) Town.S2 = SectionDirection_of Town.S2.
Proof.
  apply (@single_section_street_direction (Section_table Town.meta) Town.S2).
  reflexivity.
Defined.
